(** * jamespot-todo-api: the fake todo backend and its fake socket

    A shallow embedding of [todo-api.ts] (class [TodoApi]) and of the
    [FakeSocket] class of [fake-socket.ts], with the properties the
    specification states about them.

    Conventions of the embedding.
    - JavaScript numbers used as indices are integers, modelled in [Z].
    - Every API method schedules one callback with [setTimeout]; the
      callback runs to completion on the single JavaScript thread.  An
      operation is modelled by its callback: a state transformer over the
      [World] (the [todos] field, the [localStorage] slot, the socket, and
      the log of listener invocations) together with the promise being
      settled.  The random delay only decides when the callback runs and is
      not modelled.
    - [Math.random() < successRate] is an oracle: each operation takes the
      boolean result of [isSuccess] as its [sample] argument.
    - The write to [localStorage] can throw.  The first model of the
      callbacks is the platform on which it never does; the module
      [Failing] takes the fate of the write as one more argument and has
      the [try]/[catch] of the callbacks.
    - Socket listeners are external callbacks.  A listener is represented
      by its identity, every invocation is appended to [received], and a
      listener is assumed to return normally without calling back into the
      socket or the API. *)

From stdpp Require Import base option list gmap strings.
From Stdlib Require Import ZArith Lia.

Local Open Scope Z_scope.

(** ** JavaScript arrays *)

Module Js.

(** [Array.prototype.splice(start, deleteCount, ...ins)] on the indexed
    elements (ECMA-262, 23.1.3.31): a negative [start] counts from the
    end, both bounds are clamped, and the removed elements are returned. *)
Definition splice {A : Type} (start deleteCount : Z) (ins : list A)
    (l : list A) : list A * list A :=
  let len := Z.of_nat (length l) in
  let actualStart :=
    if start <? 0 then Z.max (len + start) 0 else Z.min start len in
  let actualDeleteCount := Z.min (Z.max deleteCount 0) (len - actualStart) in
  let s := Z.to_nat actualStart in
  let d := Z.to_nat actualDeleteCount in
  (take d (drop s l), take s l ++ ins ++ drop (s + d) l).

(** [l[i]] on an array that has indexed elements only: [undefined]
    (here [None]) outside [0, length). *)
Definition get {A : Type} (l : list A) (i : Z) : option A :=
  if i <? 0 then None else l !! Z.to_nat i.

(** An integer is an array index when it lies in [0, 2^32 - 1); any other
    key names an ordinary property of the array object. *)
Definition is_index (i : Z) : bool := (0 <=? i) && (i <? 4294967295).

(** An array of [A] as the code can build it.  [elems] are the indexed
    slots: [Some x] holds a value, [None] is a slot that reads back as
    [undefined] (a hole, or [undefined] itself; indexed reads, [length]
    and [JSON.stringify] do not tell them apart).  [props] are the
    properties whose key is an integer that is not an array index: they
    do not count towards [length] and are invisible to [splice], to
    spreading and to [JSON.stringify].  JavaScript keeps [length] below
    [2^32]; the model puts no bound on the number of slots. *)
Record array (A : Type) := Array {
  elems : list (option A);
  props : gmap Z A;
}.
Arguments Array {A} _ _.
Arguments elems {A} _.
Arguments props {A} _.

Definition empty {A : Type} : array A := Array [] ∅.

Definition length {A : Type} (a : array A) : Z :=
  Z.of_nat (List.length (elems a)).

(** [a[i]] *)
Definition read {A : Type} (a : array A) (i : Z) : option A :=
  if is_index i then mjoin (elems a !! Z.to_nat i) else props a !! i.

(** [a[i] = v]: overwrites a slot in range, extends the array (leaving
    empty slots in between) for an index at or beyond [length], and sets an
    ordinary property otherwise. *)
Definition write {A : Type} (a : array A) (i : Z) (v : A) : array A :=
  if is_index i then
    let n := Z.to_nat i in
    if (n <? List.length (elems a))%nat
    then Array (<[n := Some v]> (elems a)) (props a)
    else Array (elems a ++ replicate (n - List.length (elems a)) None ++ [Some v])
               (props a)
  else Array (elems a) (<[i := v]> (props a)).

(** [a.push(v)]; the new length is [length] of the result. *)
Definition push {A : Type} (a : array A) (v : A) : array A :=
  Array (elems a ++ [Some v]) (props a).

(** [[...a]]: a fresh array with the indexed slots of [a]. *)
Definition spread {A : Type} (a : array A) : array A := Array (elems a) ∅.

(** [a.splice(start, deleteCount, ...ins)]: the removed slots and the
    array afterwards. *)
Definition array_splice {A : Type} (start deleteCount : Z)
    (ins : list (option A)) (a : array A) : list (option A) * array A :=
  let '(removed, rest) := splice start deleteCount ins (elems a) in
  (removed, Array rest (props a)).

(** [a.map(f)]: a fresh array of the same length; [f] is applied to the
    slots that hold a value and an empty slot stays empty (JavaScript hands a
    slot holding [undefined] to [f]; the model does not separate it from a
    hole).  The result has indexed slots only. *)
Definition map {A B : Type} (f : A → B) (a : array A) : array B :=
  Array (List.map (option_map f) (elems a)) ∅.

End Js.

(** ** Data model ([todo-api.ts]) *)

Record Todo := mkTodo {
  description : string;
  done : bool;
}.

Record TodoList := mkTodoList {
  items : Js.array Todo;
  name : string;
}.

(** The [error] object of an [ApiResponseError]; its [description] field is
    [error_description] here, [description] being the field of [Todo]. *)
Record ApiResponseError := mkError {
  code : Z;
  error_description : string;
}.

(** [ApiResponseWrapper<T>] as the way the promise of an operation is
    settled: resolved with [{response}] or rejected with [{error}]. *)
Inductive Settlement (T : Type) :=
| Resolved (response : T)
| Rejected (error : ApiResponseError).
Arguments Resolved {T} _.
Arguments Rejected {T} _.

Definition initTodos : list TodoList :=
  [ {| items := Js.empty; name := "my first list" |} ].

(** ** Messages and the socket ([fake-socket.ts]) *)

Inductive RawMessage :=
| CreateListMessage (message : TodoList)
| DeleteListMessage (index : Z)
| AddTodoMessage (listIndex : Z) (item : Todo)
| RemoveTodoMessage (listIndex itemIndex : Z)
| MoveTodoMessage (listIndex sourceIndex destIndex : Z)
| EditTodoMessage (listIndex itemIndex : Z) (newValue : Todo).

(** [RawMessage & {sequenceId: number}] *)
Record SocketMessage := mkSocketMessage {
  sequenceId : Z;
  raw : RawMessage;
}.

(** A listener, by identity (functions are compared with [!==]). *)
Definition SocketClient := nat.

(** One invocation [client(socketMessage)]. *)
Abbreviation Delivery := (SocketClient * SocketMessage)%type.

Module FakeSocket.

Record t := mk {
  clients : list SocketClient;
  counter : Z;            (* the private field [sequenceId] *)
}.

(** The socket together with the invocations made so far. *)
Definition st : Type := t * list Delivery.

Definition new : t := {| clients := []; counter := 0 |}.

Definition addListener (client : SocketClient) (s : t) : t :=
  {| clients := clients s ++ [client]; counter := counter s |}.

Definition removeListener (client : SocketClient) (s : t) : t :=
  {| clients := filter (λ currentClient, currentClient ≠ client) (clients s);
     counter := counter s |}.

(** Body of the [forEach] callback: build the envelope from the socket's
    current [sequenceId] and invoke the listener. *)
Definition deliver (message : RawMessage) (client : SocketClient)
    (σ : st) : st :=
  let socketMessage := {| sequenceId := counter σ.1; raw := message |} in
  (σ.1, σ.2 ++ [(client, socketMessage)]).

(** [this.clients.forEach(...)]: the array is read once, when the loop
    starts. *)
Definition forEach (f : SocketClient → st → st) (l : list SocketClient)
    (σ : st) : st :=
  foldl (λ acc client, f client acc) σ l.

Definition dispatchMessage (message : RawMessage) (σ : st) : st :=
  forEach (deliver message) (clients σ.1) σ.

End FakeSocket.

(** ** The store ([TodoApi]) *)

(** The JSON text written by [saveTodoToStorage]: per list its name and its
    indexed slots, an empty slot being printed as [null]. *)
Definition Blob : Type := list (string * list (option Todo)).

(** What [localStorage.getItem] can return for the key, classified the way
    the constructor looks at it. *)
Inductive StorageText :=
| EmptyText                (* the empty string, which is falsy *)
| InvalidText              (* [JSON.parse] throws *)
| NotArrayText             (* parses, but [Array.isArray] is false *)
| ArrayText (b : Blob).    (* the text of a list sequence *)

Definition stringify (ts : list TodoList) : Blob :=
  map (λ l, (name l, Js.elems (items l))) ts.

(** [JSON.parse] of the text of a list sequence.  A [null] of the text
    becomes a slot without a todo: the model has the one value [None] for
    such a slot and does not tell a [null] read back from the storage from
    the hole or the [undefined] it was written for. *)
Definition parse (b : Blob) : list TodoList :=
  map (λ e, {| items := Js.Array e.2 ∅; name := e.1 |}) b.

Record World := mkWorld {
  todos : list TodoList;                  (* [this.todos] *)
  localStorage : option StorageText;      (* item 'jamespot-todo-tech' *)
  socket : FakeSocket.t;                  (* the exported [socket] *)
  received : list Delivery;               (* listener invocations so far *)
}.

(** The constructor: the initial value of [this.todos]. *)
Definition constructor (storage : option StorageText) : list TodoList :=
  match storage with
  | Some (ArrayText b) => parse b
  | Some NotArrayText => initTodos
  | Some InvalidText => initTodos           (* the [catch] branch *)
  | Some EmptyText => initTodos
  | None => initTodos
  end.

Definition buildErrorResponse (code : Z) (description : string)
    : ApiResponseError :=
  {| code := code; error_description := description |}.

(** *** The callback monad

    State of a running callback: the world and the promise it settles.
    [resolve] and [reject] settle a pending promise and do nothing on a
    settled one; neither of them ends the callback. *)
Record Run (T : Type) := mkRun {
  world : World;
  promise : option (Settlement T);
}.
Arguments mkRun {T} _ _.
Arguments world {T} _.
Arguments promise {T} _.

Definition Callback (T A : Type) : Type := Run T → A * Run T.

#[global] Instance callback_ret {T} : MRet (Callback T) :=
  λ A x r, (x, r).
#[global] Instance callback_bind {T} : MBind (Callback T) :=
  λ A B f c r, let '(x, r') := c r in f x r'.

Definition getTodos {T} : Callback T (list TodoList) :=
  λ r, (todos (world r), r).

Definition setTodos {T} (ts : list TodoList) : Callback T unit :=
  λ r, let w := world r in
       (tt, mkRun (mkWorld ts (localStorage w) (socket w) (received w))
                  (promise r)).

Definition settle {T} (s : Settlement T) : Callback T unit :=
  λ r, (tt, mkRun (world r)
                  (match promise r with Some s0 => Some s0 | None => Some s end)).

Definition resolve {T} (response : T) : Callback T unit :=
  settle (Resolved response).

Definition reject {T} (error : ApiResponseError) : Callback T unit :=
  settle (Rejected error).

Definition saveTodoToStorage {T} : Callback T unit :=
  λ r, let w := world r in
       (tt, mkRun (mkWorld (todos w) (Some (ArrayText (stringify (todos w))))
                           (socket w) (received w))
                  (promise r)).

(** [socket.dispatchMessage(message)] *)
Definition dispatch {T} (message : RawMessage) : Callback T unit :=
  λ r, let w := world r in
       let σ := FakeSocket.dispatchMessage message (socket w, received w) in
       (tt, mkRun (mkWorld (todos w) (localStorage w) σ.1 σ.2) (promise r)).

(** [if (c) { body }] with no [else]. *)
Definition when {T} (c : bool) (body : Callback T unit) : Callback T unit :=
  if c then body else mret tt.

(** Replace the list at position [i] of [this.todos] (the effect of mutating
    the object [this.todos[i]] in place). *)
Definition setList (i : Z) (l : TodoList) (ts : list TodoList)
    : list TodoList :=
  <[Z.to_nat i := l]> ts.

Definition withItems (l : TodoList) (a : Js.array Todo) : TodoList :=
  {| items := a; name := name l |}.

(** Run a callback on a world, with its promise pending. *)
Definition run {T} (c : Callback T unit) (w : World) : Run T :=
  (c (mkRun w None)).2.

(** *** The operations

    Each definition is the body of the [setTimeout] callback of the method
    of the same name; [sample] is the value of
    [this.isSuccess(this.successRate)].  A [return] inside the callback is
    the end of the corresponding branch.  The objects of [this.todos] are
    pairwise distinct (they come from [JSON.parse], from [initTodos] or from
    a fresh literal in [createList]), so mutating one of them in place is an
    update of one position of the sequence.  [{...item}] copies a value that
    the model never mutates, so the copy is the value itself.  No step of a
    callback throws in the model (the storage accepts every write and the
    listeners return), so the [catch] branches, which reject with 500, are
    never entered and are left out.  These definitions are the callbacks on
    a platform whose storage takes every text; the module [Failing] below
    gives them with a write that may throw and with their [try]/[catch]. *)

Definition createList (name : string) (sample : bool) : Callback Z unit :=
  if sample then
    ts ← getTodos;
    let pushed := ts ++ [ {| items := Js.empty; name := name |} ] in
    let length := Z.of_nat (List.length pushed) in
    setTodos pushed ;;
    saveTodoToStorage ;;
    ts ← getTodos;
    match Js.get ts (Z.of_nat (List.length ts) - 1) with
    | None => mret tt
    | Some {| items := currentItems; name := currentName |} =>
        dispatch (CreateListMessage
                    {| items := Js.spread currentItems;
                       name := currentName |}) ;;
        resolve (length - 1)
    end
  else reject (buildErrorResponse 500 "internal error").

Definition deleteList (listIndex : Z) (sample : bool) : Callback bool unit :=
  if sample then
    ts ← getTodos;
    when ((listIndex <? 0) || (listIndex >=? Z.of_nat (length ts)))
         (reject (buildErrorResponse 400 "index out of bound")) ;;
    ts ← getTodos;
    setTodos (Js.splice listIndex 1 [] ts).2 ;;
    saveTodoToStorage ;;
    dispatch (DeleteListMessage listIndex) ;;
    resolve true
  else reject (buildErrorResponse 500 "internal error").

Definition addTodo (listIndex : Z) (item : Todo) (sample : bool)
    : Callback bool unit :=
  if sample then
    ts ← getTodos;
    when ((listIndex <? 0) || (listIndex >=? Z.of_nat (length ts)))
         (reject (buildErrorResponse 400 "index out of bound")) ;;
    ts ← getTodos;
    match Js.get ts listIndex with
    | None => mret tt
    | Some currentList =>
        setTodos (setList listIndex
                    (withItems currentList (Js.push (items currentList) item))
                    ts) ;;
        saveTodoToStorage ;;
        dispatch (AddTodoMessage listIndex item) ;;
        resolve true
    end
  else reject (buildErrorResponse 500 "internal error").

Definition removeTodo (listIndex todoIndex : Z) (sample : bool)
    : Callback bool unit :=
  if sample then
    ts ← getTodos;
    if (listIndex <? 0) || (listIndex >=? Z.of_nat (length ts)) then
      reject (buildErrorResponse 400 "index out of bound")
    else
      match Js.get ts listIndex with
      | None => reject (buildErrorResponse 400 "index out of bound")
      | Some currentList =>
          if (todoIndex <? 0) || (todoIndex >=? Js.length (items currentList))
          then reject (buildErrorResponse 400 "index out of bound")
          else
            setTodos (setList listIndex
                        (withItems currentList
                           (Js.array_splice todoIndex 1 [] (items currentList)).2)
                        ts) ;;
            saveTodoToStorage ;;
            dispatch (RemoveTodoMessage listIndex todoIndex) ;;
            resolve true
      end
  else reject (buildErrorResponse 500 "internal error").

Definition moveTodo (listIndex sourceIndex destIndex : Z) (sample : bool)
    : Callback bool unit :=
  if sample then
    ts ← getTodos;
    match Js.get ts listIndex with
    | None => reject (buildErrorResponse 400 "Could not find todolist")
    | Some todoList =>
        if (listIndex <? 0) || (listIndex >=? Z.of_nat (length ts))
           || (sourceIndex <? 0) || (sourceIndex >=? Js.length (items todoList))
        then reject (buildErrorResponse 400 "index out of bound")
        else
          let '(todo, rest) := Js.array_splice sourceIndex 1 [] (items todoList) in
          setTodos (setList listIndex
                      (withItems todoList
                         (Js.array_splice destIndex 0 todo rest).2)
                      ts) ;;
          saveTodoToStorage ;;
          dispatch (MoveTodoMessage listIndex sourceIndex destIndex) ;;
          resolve true
    end
  else reject (buildErrorResponse 500 "internal error").

Definition editTodo (listIndex itemIndex : Z) (newValue : Todo) (sample : bool)
    : Callback bool unit :=
  if sample then
    ts ← getTodos;
    match Js.get ts listIndex with
    | None => reject (buildErrorResponse 400 "could not find todolist")
    | Some todoList =>
        when ((listIndex <? 0) || (listIndex >=? Z.of_nat (length ts))
              || (itemIndex <? 0) || (itemIndex >=? Js.length (items todoList)))
             (reject (buildErrorResponse 400 "index out of bound")) ;;
        setTodos (setList listIndex
                    (withItems todoList (Js.write (items todoList) itemIndex newValue))
                    ts) ;;
        saveTodoToStorage ;;
        dispatch (EditTodoMessage listIndex itemIndex newValue) ;;
        resolve true
    end
  else reject (buildErrorResponse 500 "internal error").


Definition getTodoLists (sample : bool) : Callback (list TodoList) unit :=
  if sample then
    ts ← getTodos;
    resolve (List.map (λ todolist,
                         {| items := Js.map (λ todo : Todo, todo) (items todolist);
                            name := name todolist |}) ts)
  else reject (buildErrorResponse 500 "internal error").

(** *** Calls in sequence

    The callbacks of the calls in flight run one after the other, each to
    completion, in the order their timers fire.  A [Request] names one call
    with its arguments; [serve] runs its callback and [serveAll] runs the
    callbacks of a list of calls in the order given, collecting how each
    promise was settled. *)

Inductive Request :=
| GetTodoLists
| CreateList (name : string)
| DeleteList (listIndex : Z)
| AddTodo (listIndex : Z) (item : Todo)
| RemoveTodo (listIndex todoIndex : Z)
| MoveTodo (listIndex sourceIndex destIndex : Z)
| EditTodo (listIndex itemIndex : Z) (newValue : Todo).

(** The [response] of any of the methods. *)
Inductive Response :=
| Lists (ls : list TodoList)
| Index (n : Z)
| Flag (b : bool).

Definition settled {T} (wrap : T → Response) (r : Run T)
    : World * option (Settlement Response) :=
  (world r,
   match promise r with
   | Some (Resolved x) => Some (Resolved (wrap x))
   | Some (Rejected e) => Some (Rejected e)
   | None => None
   end).

Definition serve (q : Request) (sample : bool) (w : World)
    : World * option (Settlement Response) :=
  match q with
  | GetTodoLists => settled Lists (run (getTodoLists sample) w)
  | CreateList name => settled Index (run (createList name sample) w)
  | DeleteList i => settled Flag (run (deleteList i sample) w)
  | AddTodo i item => settled Flag (run (addTodo i item sample) w)
  | RemoveTodo i k => settled Flag (run (removeTodo i k sample) w)
  | MoveTodo i s d => settled Flag (run (moveTodo i s d sample) w)
  | EditTodo i k v => settled Flag (run (editTodo i k v sample) w)
  end.

Fixpoint serveAll (calls : list (Request * bool)) (w : World) : World :=
  match calls with
  | [] => w
  | (q, sample) :: rest => serveAll rest (serve q sample w).1
  end.

(** ** The callbacks when the write to the storage may throw

    [window.localStorage.setItem('jamespot-todo-tech', JSON.stringify(...))]
    throws when the text cannot be built (it would be longer than a string
    can be, as after [editTodo] with a very large index) or cannot be stored
    (quota).  Whether it does is decided by the platform: like [sample], it
    is an argument of the callback, [saved].  An exception ends the [try]
    block and runs the [catch] branch, which rejects with 500; in
    [createList], which has no [try], it ends the callback.  With
    [saved = true] these callbacks are the ones above. *)

Module Failing.

(** How a piece of a callback ends: normally, with a value, or by a throw. *)
Inductive Completion (A : Type) :=
| Normal (a : A)
| Thrown.
Arguments Normal {A} _.
Arguments Thrown {A}.

Definition Throwing (T A : Type) : Type := Run T → Completion A * Run T.

#[global] Instance throwing_ret {T} : MRet (Throwing T) :=
  λ A x r, (Normal x, r).
#[global] Instance throwing_bind {T} : MBind (Throwing T) :=
  λ A B f c r,
    match c r with
    | (Normal x, r') => f x r'
    | (Thrown, r') => (Thrown, r')
    end.

(** A step that does not throw. *)
Definition lift {T A} (c : Callback T A) : Throwing T A :=
  λ r, let '(x, r') := c r in (Normal x, r').

Definition throw {T A} : Throwing T A := λ r, (Thrown, r).

(** [try { body } catch (e) { handler }] *)
Definition tryCatch {T} (body handler : Throwing T unit) : Throwing T unit :=
  λ r,
    match body r with
    | (Normal x, r') => (Normal x, r')
    | (Thrown, r') => handler r'
    end.

Definition getTodos {T} : Throwing T (list TodoList) := lift getTodos.
Definition setTodos {T} (ts : list TodoList) : Throwing T unit :=
  lift (setTodos ts).
Definition resolve {T} (response : T) : Throwing T unit :=
  lift (resolve response).
Definition reject {T} (error : ApiResponseError) : Throwing T unit :=
  lift (reject error).
Definition dispatch {T} (message : RawMessage) : Throwing T unit :=
  lift (dispatch message).

Definition when {T} (c : bool) (body : Throwing T unit) : Throwing T unit :=
  if c then body else mret tt.

Definition saveTodoToStorage {T} (saved : bool) : Throwing T unit :=
  if saved then lift saveTodoToStorage else throw.

(** Run a callback on a world, with its promise pending; an exception that
    leaves the callback is lost and the promise stays as it is. *)
Definition run {T} (c : Throwing T unit) (w : World) : Run T :=
  (c (mkRun w None)).2.

Definition createList (name : string) (sample saved : bool)
    : Throwing Z unit :=
  if sample then
    ts ← getTodos;
    let pushed := ts ++ [ {| items := Js.empty; name := name |} ] in
    let length := Z.of_nat (List.length pushed) in
    setTodos pushed ;;
    saveTodoToStorage saved ;;
    ts ← getTodos;
    match Js.get ts (Z.of_nat (List.length ts) - 1) with
    | None => mret tt
    | Some {| items := currentItems; name := currentName |} =>
        dispatch (CreateListMessage
                    {| items := Js.spread currentItems;
                       name := currentName |}) ;;
        resolve (length - 1)
    end
  else reject (buildErrorResponse 500 "internal error").

Definition deleteList (listIndex : Z) (sample saved : bool)
    : Throwing bool unit :=
  if sample then
    tryCatch
      (ts ← getTodos;
       when ((listIndex <? 0) || (listIndex >=? Z.of_nat (length ts)))
            (reject (buildErrorResponse 400 "index out of bound")) ;;
       ts ← getTodos;
       setTodos (Js.splice listIndex 1 [] ts).2 ;;
       saveTodoToStorage saved ;;
       dispatch (DeleteListMessage listIndex) ;;
       resolve true)
      (reject (buildErrorResponse 500 "internal error"))
  else reject (buildErrorResponse 500 "internal error").

Definition addTodo (listIndex : Z) (item : Todo) (sample saved : bool)
    : Throwing bool unit :=
  if sample then
    tryCatch
      (ts ← getTodos;
       when ((listIndex <? 0) || (listIndex >=? Z.of_nat (length ts)))
            (reject (buildErrorResponse 400 "index out of bound")) ;;
       ts ← getTodos;
       match Js.get ts listIndex with
       | None => mret tt
       | Some currentList =>
           setTodos (setList listIndex
                       (withItems currentList
                          (Js.push (items currentList) item))
                       ts) ;;
           saveTodoToStorage saved ;;
           dispatch (AddTodoMessage listIndex item) ;;
           resolve true
       end)
      (reject (buildErrorResponse 500 "internal error"))
  else reject (buildErrorResponse 500 "internal error").

Definition removeTodo (listIndex todoIndex : Z) (sample saved : bool)
    : Throwing bool unit :=
  if sample then
    tryCatch
      (ts ← getTodos;
       if (listIndex <? 0) || (listIndex >=? Z.of_nat (length ts)) then
         reject (buildErrorResponse 400 "index out of bound")
       else
         match Js.get ts listIndex with
         | None => reject (buildErrorResponse 400 "index out of bound")
         | Some currentList =>
             if (todoIndex <? 0)
                || (todoIndex >=? Js.length (items currentList))
             then reject (buildErrorResponse 400 "index out of bound")
             else
               setTodos (setList listIndex
                           (withItems currentList
                              (Js.array_splice todoIndex 1 []
                                 (items currentList)).2)
                           ts) ;;
               saveTodoToStorage saved ;;
               dispatch (RemoveTodoMessage listIndex todoIndex) ;;
               resolve true
         end)
      (reject (buildErrorResponse 500 "internal error"))
  else reject (buildErrorResponse 500 "internal error").

Definition moveTodo (listIndex sourceIndex destIndex : Z)
    (sample saved : bool) : Throwing bool unit :=
  if sample then
    tryCatch
      (ts ← getTodos;
       match Js.get ts listIndex with
       | None => reject (buildErrorResponse 400 "Could not find todolist")
       | Some todoList =>
           if (listIndex <? 0) || (listIndex >=? Z.of_nat (length ts))
              || (sourceIndex <? 0)
              || (sourceIndex >=? Js.length (items todoList))
           then reject (buildErrorResponse 400 "index out of bound")
           else
             let '(todo, rest) :=
               Js.array_splice sourceIndex 1 [] (items todoList) in
             setTodos (setList listIndex
                         (withItems todoList
                            (Js.array_splice destIndex 0 todo rest).2)
                         ts) ;;
             saveTodoToStorage saved ;;
             dispatch (MoveTodoMessage listIndex sourceIndex destIndex) ;;
             resolve true
       end)
      (reject (buildErrorResponse 500 "internal error"))
  else reject (buildErrorResponse 500 "internal error").

Definition editTodo (listIndex itemIndex : Z) (newValue : Todo)
    (sample saved : bool) : Throwing bool unit :=
  if sample then
    tryCatch
      (ts ← getTodos;
       match Js.get ts listIndex with
       | None => reject (buildErrorResponse 400 "could not find todolist")
       | Some todoList =>
           when ((listIndex <? 0) || (listIndex >=? Z.of_nat (length ts))
                 || (itemIndex <? 0)
                 || (itemIndex >=? Js.length (items todoList)))
                (reject (buildErrorResponse 400 "index out of bound")) ;;
           setTodos (setList listIndex
                       (withItems todoList
                          (Js.write (items todoList) itemIndex newValue))
                       ts) ;;
           saveTodoToStorage saved ;;
           dispatch (EditTodoMessage listIndex itemIndex newValue) ;;
           resolve true
       end)
      (reject (buildErrorResponse 500 "internal error"))
  else reject (buildErrorResponse 500 "internal error").

(** One call: its request, its sample and the fate of its write. *)
Definition serve (q : Request) (sample saved : bool) (w : World)
    : World * option (Settlement Response) :=
  match q with
  | GetTodoLists => settled Lists (run (lift (getTodoLists sample)) w)
  | CreateList name => settled Index (run (createList name sample saved) w)
  | DeleteList i => settled Flag (run (deleteList i sample saved) w)
  | AddTodo i item => settled Flag (run (addTodo i item sample saved) w)
  | RemoveTodo i k => settled Flag (run (removeTodo i k sample saved) w)
  | MoveTodo i s d => settled Flag (run (moveTodo i s d sample saved) w)
  | EditTodo i k v => settled Flag (run (editTodo i k v sample saved) w)
  end.

Fixpoint serveAll (calls : list (Request * bool * bool)) (w : World)
    : World :=
  match calls with
  | [] => w
  | (q, sample, saved) :: rest => serveAll rest (serve q sample saved w).1
  end.

End Failing.

(** Calls on the socket, in sequence. *)
Inductive SocketCall :=
| AddListener (client : SocketClient)
| RemoveListener (client : SocketClient)
| DispatchMessage (message : RawMessage).

Definition socketCall (c : SocketCall) (σ : FakeSocket.st) : FakeSocket.st :=
  match c with
  | AddListener client => (FakeSocket.addListener client σ.1, σ.2)
  | RemoveListener client => (FakeSocket.removeListener client σ.1, σ.2)
  | DispatchMessage message => FakeSocket.dispatchMessage message σ
  end.

Definition socketCalls (cs : list SocketCall) (σ : FakeSocket.st)
    : FakeSocket.st :=
  foldl (λ σ c, socketCall c σ) σ cs.

(** ** The random action executor ([fake-socket.ts])

    The control part of [RandomActionExecutor]: [launch], [stop] and the
    timer chain of [nextExec] and [run].  Periods are integers.  The state
    is the object with its three fields, the number of timers set by
    [nextExec] that have not fired yet, and the number of calls of
    [performRandomAction] so far; the delay of a timer and what a random
    action does are not part of this model. *)

Module Executor.

Record t := mk {
  running : bool;
  minPeriod : Z;
  maxPeriod : Z;
}.

Record st := mkSt {
  this : t;
  pending : nat;        (* timers set and not fired yet *)
  performed : nat;      (* calls of [performRandomAction] *)
}.

Definition new : t := {| running := false; minPeriod := 1; maxPeriod := 5 |}.

(** [window.setTimeout(() => { this.run(); }, currentTimeout)] *)
Definition nextExec (σ : st) : st :=
  mkSt (this σ) (S (pending σ)) (performed σ).

(** [launch(minPeriod, maxPeriod)]: [inl] is the [Error] thrown. *)
Definition launch (minPeriod maxPeriod : Z) (σ : st) : string + st :=
  if (Executor.minPeriod (this σ) <? 0) || (Executor.maxPeriod (this σ) <? 0)
     || (Executor.minPeriod (this σ) >=? Executor.maxPeriod (this σ))
  then inl "min period must be inferior to max period and both must be positive"
  else inr (nextExec (mkSt {| running := true;
                              minPeriod := minPeriod;
                              maxPeriod := maxPeriod |}
                           (pending σ) (performed σ))).

Definition stop (σ : st) : st :=
  mkSt {| running := false;
          minPeriod := Executor.minPeriod (this σ);
          maxPeriod := Executor.maxPeriod (this σ) |}
       (pending σ) (performed σ).

Definition performRandomAction (σ : st) : st :=
  mkSt (this σ) (pending σ) (S (performed σ)).

Definition run (σ : st) : st :=
  if running (this σ) then nextExec (performRandomAction σ) else σ.

(** One pending timer fires and its callback runs. *)
Definition fire (σ : st) : st :=
  match pending σ with
  | O => σ
  | S n => run (mkSt (this σ) n (performed σ))
  end.

(** What the owner of the executor and the timers can do to it; a [launch]
    that throws leaves the state as it is. *)
Inductive Event :=
| Launch (minPeriod maxPeriod : Z)
| Stop
| Fire.

Definition step (e : Event) (σ : st) : st :=
  match e with
  | Launch a b => match launch a b σ with inl _ => σ | inr σ' => σ' end
  | Stop => stop σ
  | Fire => fire σ
  end.

Definition steps (es : list Event) (σ : st) : st :=
  foldl (λ σ e, step e σ) σ es.

End Executor.

(** ** Specification vocabulary *)

(** The invocations a publication of [message] makes on socket [s]: one per
    registration, in registration order, stamped with the socket's counter. *)
Definition broadcast (s : FakeSocket.t) (message : RawMessage) : list Delivery :=
  map (λ client,
         (client, {| sequenceId := FakeSocket.counter s; raw := message |}))
      (FakeSocket.clients s).

(** The world after a committed mutation: new sequence, its text in the
    storage, one delivery of [message] per listener. *)
Definition committed (w : World) (ts : list TodoList) (message : RawMessage)
    : World :=
  mkWorld ts (Some (ArrayText (stringify ts))) (socket w)
          (received w ++ broadcast (socket w) message).

(** How many of the invocations in [log] went to [client]. *)
Definition invocations (client : SocketClient) (log : list Delivery) : nat :=
  length (filter (λ d, d.1 = client) log).

(** [i] is a position of the sequence [ts]. *)
Definition validIndex {A : Type} (i : Z) (l : list A) : Prop :=
  0 ≤ i < Z.of_nat (length l).

(** Between [before] and [after] nothing changed except, possibly, the items
    of the list at [listIndex]. *)
Definition onlyItemsChanged (listIndex : Z) (before after : list TodoList)
    : Prop :=
  length after = length before
  ∧ (∀ j, j ≠ listIndex → Js.get after j = Js.get before j)
  ∧ ∃ l l', Js.get before listIndex = Some l
            ∧ Js.get after listIndex = Some l'
            ∧ name l' = name l.

(** The storage holds the text of the current sequence. *)
Definition synced (w : World) : Prop :=
  localStorage w = Some (ArrayText (stringify (todos w))).

(** A list whose items are what the type [Todo[]] promises: every slot
    holds a todo and the array has no property besides its slots. *)
Definition plainList (l : TodoList) : Prop :=
  Forall is_Some (Js.elems (items l)) ∧ Js.props (items l) = ∅.

Definition plain (ts : list TodoList) : Prop := Forall plainList ts.

(** The bound JavaScript puts on the length of an array. *)
Definition withinLengthBound {A : Type} (a : Js.array A) : Prop :=
  Js.length a ≤ 4294967295.

(** What a list looks like after a trip through the storage: its name and
    its slots, without the other properties of the array. *)
Definition reloaded (l : TodoList) : TodoList :=
  {| items := Js.Array (Js.elems (items l)) ∅; name := name l |}.

(** The call is not an [editTodo] that misses the items of the list it
    designates. *)
Definition editsInRange (q : Request) (ts : list TodoList) : Prop :=
  match q with
  | EditTodo i k _ =>
      ∀ l, Js.get ts i = Some l →
           validIndex k (Js.elems (items l)) ∧ withinLengthBound (items l)
  | _ => True
  end.

(** The messages published by a sequence of socket calls, in order. *)
Definition dispatched (cs : list SocketCall) : list RawMessage :=
  omap (λ c, match c with DispatchMessage m => Some m | _ => None end) cs.

(** The messages a listener was invoked with, in order. *)
Definition heard (client : SocketClient) (log : list Delivery)
    : list RawMessage :=
  (λ d, raw d.2) <$> filter (λ d, d.1 = client) log.

(** The call neither registers nor removes the listener. *)
Definition leavesAlone (client : SocketClient) (c : SocketCall) : Prop :=
  match c with
  | AddListener c' | RemoveListener c' => c' ≠ client
  | DispatchMessage _ => True
  end.

(** The periods stored in the executor would make [launch] throw. *)
Definition badPeriods (e : Executor.t) : Prop :=
  Executor.minPeriod e < 0 ∨ Executor.maxPeriod e < 0
  ∨ Executor.maxPeriod e ≤ Executor.minPeriod e.

(** The list an item operation works on. *)
Definition target (q : Request) : option Z :=
  match q with
  | AddTodo i _ | RemoveTodo i _ | MoveTodo i _ _ | EditTodo i _ _ => Some i
  | GetTodoLists | CreateList _ | DeleteList _ => None
  end.

(** The world when only the lists in memory have changed. *)
Definition mutated (w : World) (ts : list TodoList) : World :=
  mkWorld ts (localStorage w) (socket w) (received w).

(** How the promise of a call ends when its write throws, given how it
    ends when the write succeeds: a rejection made before the write stays;
    otherwise the [catch] branch rejects with 500, except in [createList],
    which has none and stays pending, and in [getTodoLists], which does not
    write. *)
Definition unsavedOutcome (q : Request) (o : option (Settlement Response))
    : option (Settlement Response) :=
  match q, o with
  | GetTodoLists, _ => o
  | _, Some (Rejected e) => Some (Rejected e)
  | CreateList _, _ => None
  | _, _ => Some (Rejected (buildErrorResponse 500 "internal error"))
  end.

(** A store with two lists and two listeners, to instantiate theorems. *)
Definition sampleLists : list TodoList :=
  [ {| items := Js.Array [Some (mkTodo "milk" false); Some (mkTodo "eggs" true);
                          Some (mkTodo "tea" false)] ∅;
       name := "groceries" |};
    {| items := Js.Array [Some (mkTodo "sweep" false)] ∅; name := "chores" |} ].

Definition sampleWorld : World :=
  mkWorld sampleLists (Some (ArrayText (stringify sampleLists)))
          (FakeSocket.mk [1; 2]%nat 0) [].

(** ** Lemmas on arrays *)

Section ArrayLemmas.
Context {A : Type}.
Implicit Types (l : list A) (i j : Z).

Lemma get_Some_valid l i x : Js.get l i = Some x → validIndex i l.
Proof.
  unfold Js.get, validIndex. destruct (Z.ltb_spec i 0); [done|].
  intros Hl%lookup_lt_Some. lia.
Qed.

Lemma valid_get_Some l i : validIndex i l → ∃ x, Js.get l i = Some x.
Proof.
  unfold Js.get, validIndex. intros [H0 Hlen].
  destruct (Z.ltb_spec i 0); [lia|].
  apply lookup_lt_is_Some_2. lia.
Qed.

Lemma get_insert_eq l i x y :
  Js.get l i = Some x → Js.get (<[Z.to_nat i := y]> l) i = Some y.
Proof.
  unfold Js.get. destruct (Z.ltb_spec i 0); [done|].
  intros Hl%lookup_lt_Some. by apply list_lookup_insert_eq.
Qed.

Lemma get_insert_ne l i j y :
  0 ≤ i → j ≠ i → Js.get (<[Z.to_nat i := y]> l) j = Js.get l j.
Proof.
  unfold Js.get. intros Hi Hne. destruct (Z.ltb_spec j 0); [done|].
  apply list_lookup_insert_ne. lia.
Qed.

(** Removing one element at a position in range. *)
Lemma splice_remove l i :
  validIndex i l →
  Js.splice i 1 [] l = (take 1 (drop (Z.to_nat i) l), delete (Z.to_nat i) l).
Proof.
  unfold validIndex, Js.splice. intros [H0 Hlen].
  destruct (Z.ltb_spec i 0); [lia|].
  replace (Z.min i (Z.of_nat (length l))) with i by lia.
  replace (Z.to_nat (Z.min (Z.max 1 0) (Z.of_nat (length l) - i))) with 1%nat by lia.
  by rewrite delete_take_drop, Nat.add_1_r.
Qed.

(** Inserting at a non-negative position: clamped to the length. *)
Lemma splice_insert l i ins :
  0 ≤ i →
  let d := Z.to_nat (Z.min i (Z.of_nat (length l))) in
  Js.splice i 0 ins l = ([], take d l ++ ins ++ drop d l).
Proof.
  unfold Js.splice. intros H0. simpl.
  destruct (Z.ltb_spec i 0); [lia|].
  replace (Z.to_nat (Z.min (Z.max 0 0) _)) with 0%nat by lia.
  by rewrite take_0, Nat.add_0_r.
Qed.

End ArrayLemmas.

(** ** The socket *)

Section SocketLemmas.
Implicit Types (s : FakeSocket.t) (log : list Delivery) (client : SocketClient).

(** The loop of [dispatchMessage], unrolled over any list of listeners. *)
Lemma forEach_deliver message s l log :
  FakeSocket.forEach (FakeSocket.deliver message) l (s, log)
  = (s, log ++ map (λ client,
                      (client, {| sequenceId := FakeSocket.counter s;
                                  raw := message |})) l).
Proof.
  unfold FakeSocket.forEach. revert log.
  induction l as [|client l IH]; intros log; simpl.
  - by rewrite app_nil_r.
  - unfold FakeSocket.deliver at 2. simpl. rewrite IH.
    by rewrite <- app_assoc.
Qed.

Lemma dispatchMessage_broadcast message s log :
  FakeSocket.dispatchMessage message (s, log) = (s, log ++ broadcast s message).
Proof. apply forEach_deliver. Qed.

Lemma broadcast_listeners s message :
  map fst (broadcast s message) = FakeSocket.clients s.
Proof.
  unfold broadcast. induction (FakeSocket.clients s) as [|c l IH]; simpl;
    [done | by rewrite IH].
Qed.

Lemma broadcast_envelopes s message :
  Forall (λ d, d.2 = {| sequenceId := FakeSocket.counter s; raw := message |})
         (broadcast s message).
Proof.
  unfold broadcast. induction (FakeSocket.clients s) as [|c l IH]; simpl;
    constructor; done.
Qed.

Lemma invocations_broadcast client s message :
  invocations client (broadcast s message)
  = length (filter (λ c, c = client) (FakeSocket.clients s)).
Proof.
  unfold invocations, broadcast.
  induction (FakeSocket.clients s) as [|c l IH]; [done|].
  cbn [map]. rewrite !filter_cons. cbn [fst].
  destruct (decide (c = client)); cbn [length]; by rewrite IH.
Qed.

Lemma filter_absent client (l : list SocketClient) :
  client ∉ l → filter (λ c, c ≠ client) l = l.
Proof.
  induction l as [|c l IH]; [done|].
  intros Hn. apply not_elem_of_cons in Hn as [Hne Hl].
  rewrite filter_cons.
  destruct (decide (c ≠ client)) as [_|Hc]; [|destruct Hc; congruence].
  by rewrite IH.
Qed.

Lemma filter_absent_nil client (l : list SocketClient) :
  client ∉ l → filter (λ c, c = client) l = [].
Proof.
  induction l as [|c l IH]; [done|].
  intros Hn. apply not_elem_of_cons in Hn as [Hne Hl].
  rewrite filter_cons. destruct (decide (c = client)); [congruence|].
  by apply IH.
Qed.

Lemma filter_other client other (l : list SocketClient) :
  other ≠ client →
  filter (λ c, c = other) (filter (λ c, c ≠ client) l)
  = filter (λ c, c = other) l.
Proof.
  intros Hne. induction l as [|c l IH]; [done|].
  rewrite (filter_cons (λ c, c ≠ client)).
  destruct (decide (c ≠ client)) as [Hc|Hc].
  - rewrite !filter_cons. destruct (decide (c = other)); by rewrite IH.
  - apply dec_stable in Hc. subst c. rewrite IH, filter_cons.
    destruct (decide (client = other)); [congruence|done].
Qed.

End SocketLemmas.

(** C8.  [dispatchMessage] invokes every registered listener, in
    registration order, with the envelope made of the socket's current
    [sequenceId] and the event; the dispatch leaves the socket, hence its
    counter, as it was, so two consecutive publications carry the same
    [sequenceId]. *)
Theorem dispatchMessage_stamps_shared_counter
    (s : FakeSocket.t) (log : list Delivery) (event event' : RawMessage) :
  let σ := FakeSocket.dispatchMessage event (s, log) in
  let σ' := FakeSocket.dispatchMessage event' σ in
  (∃ calls, σ = (s, log ++ calls)
     ∧ map fst calls = FakeSocket.clients s
     ∧ Forall (λ d, d.2 = {| sequenceId := FakeSocket.counter s;
                             raw := event |}) calls)
  ∧ FakeSocket.counter σ.1 = FakeSocket.counter s
  ∧ (∃ calls', σ' = (s, σ.2 ++ calls')
       ∧ map fst calls' = FakeSocket.clients s
       ∧ Forall (λ d, d.2 = {| sequenceId := FakeSocket.counter s;
                               raw := event' |}) calls').
Proof.
  intros σ σ'. subst σ σ'. rewrite !dispatchMessage_broadcast. simpl.
  split; [|split; [done|]].
  - exists (broadcast s event).
    auto using broadcast_listeners, broadcast_envelopes.
  - exists (broadcast s event').
    auto using broadcast_listeners, broadcast_envelopes.
Qed.

(** C9.  Registering a listener twice adds two invocations of it per
    published event (exactly two when it was not registered before);
    [removeListener] drops every registration of the listener and keeps the
    others, in their order; removing a listener that is not registered
    leaves the socket as it was. *)
Theorem addListener_removeListener_registrations
    (L : SocketClient) (s : FakeSocket.t) (event : RawMessage) :
  let published s := (FakeSocket.dispatchMessage event (s, [])).2 in
  let twice := FakeSocket.addListener L (FakeSocket.addListener L s) in
  let removed := FakeSocket.removeListener L s in
  invocations L (published twice) = (invocations L (published s) + 2)%nat
  ∧ (L ∉ FakeSocket.clients s → invocations L (published twice) = 2%nat)
  ∧ (L ∉ FakeSocket.clients removed)
  ∧ invocations L (published removed) = 0%nat
  ∧ (FakeSocket.clients removed) `sublist_of` (FakeSocket.clients s)
  ∧ (∀ other, other ≠ L →
       invocations other (published removed) = invocations other (published s))
  ∧ (L ∉ FakeSocket.clients s → removed = s).
Proof.
  intros published twice removed. subst published twice removed. cbv beta.
  rewrite !dispatchMessage_broadcast. simpl.
  rewrite !invocations_broadcast. simpl.
  assert (Hgone : L ∉ filter (λ c, c ≠ L) (FakeSocket.clients s)).
  { intros [Hne _]%list_elem_of_filter. congruence. }
  repeat split.
  - rewrite !filter_app, !length_app. simpl.
    rewrite filter_cons. simpl. destruct (decide (L = L)); [simpl; lia|done].
  - intros Hn. rewrite !filter_app, !length_app, (filter_absent_nil _ _ Hn).
    rewrite filter_cons. simpl. destruct (decide (L = L)); [done|done].
  - done.
  - by rewrite (filter_absent_nil _ _ Hgone).
  - apply sublist_filter.
  - intros other Hne. rewrite !invocations_broadcast. simpl.
    by rewrite filter_other.
  - intros Hn. destruct s as [cl n]. unfold FakeSocket.removeListener. simpl.
    f_equal. by apply filter_absent.
Qed.

(** An instance of C9 with a hypothesis discharged: listener 3 is not
    registered on a socket with listeners 1 and 2. *)
Lemma addListener_removeListener_registrations_witness :
  FakeSocket.removeListener 3%nat (FakeSocket.mk [1; 2]%nat 0)
  = FakeSocket.mk [1; 2]%nat 0.
Proof.
  apply (addListener_removeListener_registrations 3%nat
           (FakeSocket.mk [1; 2]%nat 0) (DeleteListMessage 0)).
  intros Hin. apply list_elem_of_In in Hin. simpl in Hin. lia.
Defined.

(** ** The store: what each callback computes *)

Section StoreLemmas.
Implicit Types (w : World) (ts : list TodoList) (l : TodoList).

Lemma dispatch_broadcast {T} message (r : Run T) :
  dispatch message r
  = (tt, mkRun (mkWorld (todos (world r)) (localStorage (world r))
                  (socket (world r))
                  (received (world r) ++ broadcast (socket (world r)) message))
               (promise r)).
Proof. unfold dispatch. by rewrite dispatchMessage_broadcast. Qed.

Lemma valid_tests {A} (i : Z) (l : list A) :
  validIndex i l → (i <? 0) || (i >=? Z.of_nat (length l)) = false.
Proof. unfold validIndex. lia. Qed.

Lemma invalid_tests {A} (i : Z) (l : list A) :
  ¬ validIndex i l → (i <? 0) || (i >=? Z.of_nat (length l)) = true.
Proof. unfold validIndex. lia. Qed.

End StoreLemmas.

Ltac callback :=
  unfold run, mbind, callback_bind, mret, callback_ret, getTodos, setTodos,
    when, resolve, reject, settle, saveTodoToStorage;
  cbn [world promise todos localStorage socket received fst snd].

(** Replace the call of [dispatch] in the goal by its deliveries. *)
Ltac published :=
  match goal with
  | |- context [dispatch ?m ?r] =>
      rewrite (dispatch_broadcast m r);
      cbn [world promise todos localStorage socket received fst snd]
  end.

Section StoreRuns.
Implicit Types (w : World) (ts : list TodoList) (l : TodoList).

Lemma get_last {A} (l : list A) (x : A) :
  Js.get (l ++ [x]) (Z.of_nat (length (l ++ [x])) - 1) = Some x.
Proof.
  unfold Js.get. rewrite length_app. simpl.
  destruct (Z.ltb_spec (Z.of_nat (length l + 1) - 1) 0); [lia|].
  replace (Z.to_nat (Z.of_nat (length l + 1) - 1)) with (length l) by lia.
  by rewrite list_lookup_middle.
Qed.

Lemma run_createList w name :
  run (createList name true) w
  = let newList := {| items := Js.empty; name := name |} in
    mkRun (committed w (todos w ++ [newList]) (CreateListMessage newList))
          (Some (Resolved (Z.of_nat (length (todos w))))).
Proof.
  unfold createList. callback. rewrite get_last. callback. published. rewrite length_app. simpl. unfold committed, Js.spread.
  do 3 f_equal. lia.
Qed.

Lemma run_createList_failure w name :
  run (createList name false) w
  = mkRun w (Some (Rejected (buildErrorResponse 500 "internal error"))).
Proof. by destruct w. Qed.

Lemma run_deleteList w listIndex :
  run (deleteList listIndex true) w
  = mkRun (committed w (Js.splice listIndex 1 [] (todos w)).2
                     (DeleteListMessage listIndex))
          (Some (if (listIndex <? 0)
                    || (listIndex >=? Z.of_nat (length (todos w)))
                 then Rejected (buildErrorResponse 400 "index out of bound")
                 else Resolved true)).
Proof.
  unfold deleteList. callback.
  destruct ((listIndex <? 0) || (listIndex >=? Z.of_nat (length (todos w))));
    callback; by published.
Qed.

Lemma run_addTodo w listIndex item l :
  Js.get (todos w) listIndex = Some l →
  run (addTodo listIndex item true) w
  = mkRun (committed w
             (setList listIndex (withItems l (Js.push (items l) item)) (todos w))
             (AddTodoMessage listIndex item))
          (Some (Resolved true)).
Proof.
  intros Hl. unfold addTodo. callback.
  rewrite (valid_tests _ _ (get_Some_valid _ _ _ Hl)). callback.
  rewrite Hl. callback. by published.
Qed.

Lemma run_removeTodo w listIndex todoIndex l :
  Js.get (todos w) listIndex = Some l →
  validIndex todoIndex (Js.elems (items l)) →
  run (removeTodo listIndex todoIndex true) w
  = mkRun (committed w
             (setList listIndex
                (withItems l (Js.array_splice todoIndex 1 [] (items l)).2)
                (todos w))
             (RemoveTodoMessage listIndex todoIndex))
          (Some (Resolved true)).
Proof.
  intros Hl Hk. unfold removeTodo. callback.
  rewrite (valid_tests _ _ (get_Some_valid _ _ _ Hl)), Hl.
  unfold Js.length. rewrite (valid_tests _ _ Hk). callback.
  by published.
Qed.

Lemma run_removeTodo_invalid w listIndex todoIndex :
  ¬ validIndex listIndex (todos w)
  ∨ (∃ l, Js.get (todos w) listIndex = Some l
          ∧ ¬ validIndex todoIndex (Js.elems (items l))) →
  run (removeTodo listIndex todoIndex true) w
  = mkRun w (Some (Rejected (buildErrorResponse 400 "index out of bound"))).
Proof.
  intros [Hi | (l & Hl & Hk)]; unfold removeTodo; callback.
  - by rewrite (invalid_tests _ _ Hi).
  - rewrite (valid_tests _ _ (get_Some_valid _ _ _ Hl)), Hl.
    unfold Js.length. by rewrite (invalid_tests _ _ Hk).
Qed.

Lemma run_moveTodo w listIndex sourceIndex destIndex l :
  Js.get (todos w) listIndex = Some l →
  validIndex sourceIndex (Js.elems (items l)) →
  run (moveTodo listIndex sourceIndex destIndex true) w
  = let taken := Js.array_splice sourceIndex 1 [] (items l) in
    mkRun (committed w
             (setList listIndex
                (withItems l (Js.array_splice destIndex 0 taken.1 taken.2).2)
                (todos w))
             (MoveTodoMessage listIndex sourceIndex destIndex))
          (Some (Resolved true)).
Proof.
  intros Hl Hk. unfold moveTodo. callback. rewrite Hl.
  rewrite (valid_tests _ _ (get_Some_valid _ _ _ Hl)).
  unfold Js.length. rewrite <- orb_assoc, (valid_tests _ _ Hk). cbn [orb].
  destruct (Js.array_splice sourceIndex 1 [] (items l)) as [todo rest].
  callback. by published.
Qed.

Lemma run_editTodo w listIndex itemIndex newValue l :
  Js.get (todos w) listIndex = Some l →
  run (editTodo listIndex itemIndex newValue true) w
  = mkRun (committed w
             (setList listIndex
                (withItems l (Js.write (items l) itemIndex newValue))
                (todos w))
             (EditTodoMessage listIndex itemIndex newValue))
          (Some (if (itemIndex <? 0)
                    || (itemIndex >=? Z.of_nat (length (Js.elems (items l))))
                 then Rejected (buildErrorResponse 400 "index out of bound")
                 else Resolved true)).
Proof.
  intros Hl. unfold editTodo. callback. rewrite Hl.
  rewrite (valid_tests _ _ (get_Some_valid _ _ _ Hl)).
  unfold Js.length. rewrite <- orb_assoc. cbn [orb].
  destruct ((itemIndex <? 0)
            || (itemIndex >=? Z.of_nat (length (Js.elems (items l)))));
    callback; by published.
Qed.

End StoreRuns.

(** ** Arrays of items *)

Section ItemLemmas.
Context {A : Type}.
Implicit Types (a : Js.array A) (i : Z) (v : A).

Lemma read_write a i v : Js.read (Js.write a i v) i = Some v.
Proof.
  unfold Js.read, Js.write. destruct (Js.is_index i) eqn:Hi; simpl.
  - destruct (Nat.ltb_spec (Z.to_nat i) (length (Js.elems a))) as [Hlt|Hge]; simpl.
    + by rewrite list_lookup_insert_eq.
    + rewrite lookup_app_r by done.
      rewrite lookup_app_r by (rewrite length_replicate; lia).
      rewrite length_replicate.
      by replace (Z.to_nat i - length (Js.elems a)
                  - (Z.to_nat i - length (Js.elems a)))%nat with 0%nat by lia.
  - apply lookup_insert_eq.
Qed.

(** [push] then [splice] of the pushed position gives the array back. *)
Lemma splice_push a v :
  (Js.array_splice (Js.length a) 1 [] (Js.push a v)).2 = a.
Proof.
  destruct a as [es ps]. unfold Js.array_splice, Js.push, Js.length.
  cbn [Js.elems Js.props]. rewrite splice_remove.
  - cbn [snd]. rewrite Nat2Z.id.
    by rewrite (delete_middle es [] (Some v)), app_nil_r.
  - unfold validIndex. rewrite length_app. simpl. lia.
Qed.

(** Taking the element at [i] out and inserting it at [d ≥ 0]. *)
Lemma splice_move a i d x :
  Js.elems a !! Z.to_nat i = Some x → 0 ≤ i → 0 ≤ d →
  let taken := Js.array_splice i 1 [] a in
  let shortened := delete (Z.to_nat i) (Js.elems a) in
  let at_ := Z.to_nat (Z.min d (Z.of_nat (length shortened))) in
  (Js.array_splice d 0 taken.1 taken.2).2
  = Js.Array (take at_ shortened ++ [x] ++ drop at_ shortened) (Js.props a).
Proof.
  intros Hx Hi Hd. destruct a as [es ps]. cbn [Js.elems Js.props] in *.
  unfold Js.array_splice. cbn [Js.elems Js.props].
  rewrite splice_remove by (apply lookup_lt_Some in Hx; unfold validIndex; lia).
  cbn [fst snd Js.elems Js.props]. rewrite (splice_insert _ d) by done.
  cbn [snd]. by rewrite (drop_S _ _ _ Hx).
Qed.

End ItemLemmas.

Section SequenceLemmas.
Implicit Types (ts : list TodoList) (l : TodoList) (i : Z).

Lemma setList_get ts i l l' :
  Js.get ts i = Some l → Js.get (setList i l' ts) i = Some l'.
Proof. apply get_insert_eq. Qed.

Lemma setList_frame ts i l a :
  Js.get ts i = Some l → onlyItemsChanged i ts (setList i (withItems l a) ts).
Proof.
  intros Hl. pose proof (get_Some_valid _ _ _ Hl) as [H0 _].
  unfold onlyItemsChanged, setList. split; [apply length_insert|]. split.
  - intros j Hj. by apply get_insert_ne.
  - exists l, (withItems l a). by rewrite (get_insert_eq _ _ _ _ Hl).
Qed.

Lemma setList_same ts i l : Js.get ts i = Some l → setList i l ts = ts.
Proof.
  unfold Js.get, setList. destruct (Z.ltb_spec i 0); [done|].
  apply list_insert_id.
Qed.

Lemma setList_twice ts i l l' :
  setList i l (setList i l' ts) = setList i l ts.
Proof. apply list_insert_insert_eq. Qed.

Lemma TodoList_eta l : {| items := items l; name := name l |} = l.
Proof. by destruct l. Qed.

End SequenceLemmas.

(** ** The store: the properties of the specification *)

(** C1 (the code departs from it).  The specification wants [deleteList]
    with an index outside [0, count) to fail with error 400, to leave the
    lists alone and to publish nothing.  The callback rejects but does not
    return: on the initial store with one listener, [deleteList(-1)] rejects
    with (400, "index out of bound"), then [splice(-1, 1)] removes the last
    list, the emptied sequence is written to the storage and a [deleteList]
    message is delivered to the listener. *)
Theorem deleteList_out_of_bound_still_deletes :
  let w := mkWorld initTodos None (FakeSocket.mk [1%nat] 0) [] in
  ¬ validIndex (-1) (todos w)
  ∧ run (deleteList (-1) true) w
    = mkRun (mkWorld [] (Some (ArrayText [])) (FakeSocket.mk [1%nat] 0)
               [(1%nat, {| sequenceId := 0; raw := DeleteListMessage (-1) |})])
            (Some (Rejected (buildErrorResponse 400 "index out of bound"))).
Proof. split; [unfold validIndex; simpl; lia | reflexivity]. Qed.

(** What [deleteList] does on every index outside [0, count): the promise
    is rejected with (400, "index out of bound"), the storage is rewritten
    and the message is delivered to every listener; an index at or beyond
    the count removes nothing, a negative one removes the list it designates
    from the end. *)
Lemma deleteList_invalid_index (w : World) (listIndex : Z) :
  ¬ validIndex listIndex (todos w) →
  let r := run (deleteList listIndex true) w in
  let count := Z.of_nat (length (todos w)) in
  promise r = Some (Rejected (buildErrorResponse 400 "index out of bound"))
  ∧ received (world r)
    = received w ++ broadcast (socket w) (DeleteListMessage listIndex)
  ∧ localStorage (world r) = Some (ArrayText (stringify (todos (world r))))
  ∧ (count ≤ listIndex → todos (world r) = todos w)
  ∧ (listIndex < 0 →
     todos (world r)
     = delete (Z.to_nat (Z.max (count + listIndex) 0)) (todos w)).
Proof.
  intros Hi r count. subst r count. rewrite run_deleteList.
  rewrite (invalid_tests _ _ Hi). simpl. repeat split.
  - intros Hge. unfold Js.splice. cbn [snd].
    destruct (Z.ltb_spec listIndex 0); [lia|].
    replace (Z.to_nat (Z.min listIndex _)) with (length (todos w)) by lia.
    rewrite take_ge, drop_ge by lia. by rewrite app_nil_r.
  - intros Hneg. unfold Js.splice. cbn [snd].
    destruct (Z.ltb_spec listIndex 0); [|lia].
    rewrite delete_take_drop. simpl. f_equal.
    destruct (todos w) as [|l0 ts]; [by rewrite !drop_nil|].
    f_equal. cbn [length]. lia.
Qed.

(** The reading of "empty persisted state" matters: when the storage has no
    item at all the constructor starts from [initTodos], and the first list
    created gets index 1. *)
Remark createList_on_absent_storage (sock : FakeSocket.t) :
  promise (run (createList "work" true) (mkWorld (constructor None) None sock []))
  = Some (Resolved 1).
Proof. by rewrite run_createList. Qed.

(** C5.  [createList] on success appends [{name, items: []}], resolves
    with the index of the new list (the previous length, which is the new
    length minus one), writes the sequence to the storage and delivers a
    [createList] message carrying the new list to every listener.  From a
    storage holding the empty sequence, [createList("work")] resolves with
    index 0 and the storage then holds [[{name: "work", items: []}]]. *)
Theorem createList_appends (w : World) (name : string) :
  let r := run (createList name true) w in
  let newList := {| items := Js.empty; name := name |} in
  (todos (world r) = todos w ++ [newList]
   ∧ promise r = Some (Resolved (Z.of_nat (length (todos w))))
   ∧ Z.of_nat (length (todos w)) = Z.of_nat (length (todos (world r))) - 1
   ∧ localStorage (world r) = Some (ArrayText (stringify (todos (world r))))
   ∧ received (world r)
     = received w ++ broadcast (socket w) (CreateListMessage newList))
  ∧ (∀ sock log,
       let stored := Some (ArrayText []) in
       let r0 := run (createList "work" true)
                     (mkWorld (constructor stored) stored sock log) in
       promise r0 = Some (Resolved 0)
       ∧ localStorage (world r0) = Some (ArrayText [("work", [])])
       ∧ received (world r0)
         = log ++ broadcast sock (CreateListMessage
                                    {| items := Js.empty; name := "work" |})).
Proof.
  intros r newList. subst r newList. split.
  - rewrite run_createList.
    cbn [world promise committed todos localStorage received].
    repeat split. rewrite length_app. simpl. lia.
  - intros sock log stored r0. subst stored r0. by rewrite run_createList.
Qed.

(** C3.  [moveTodo] with a valid list, a valid source index and a
    destination index that is not negative resolves with [true]; it takes
    the item at [sourceIndex] out and puts it back at [destIndex] of the
    shortened sequence, which is its end when [destIndex] is at or beyond its
    length.  On items [A, B, C], moving 0 to 2 gives [B, C, A]. *)
Theorem moveTodo_reinserts :
  (∀ (w : World) (listIndex sourceIndex destIndex : Z) (todoList : TodoList),
     validIndex listIndex (todos w) →
     Js.get (todos w) listIndex = Some todoList →
     validIndex sourceIndex (Js.elems (items todoList)) →
     0 ≤ destIndex →
     let r := run (moveTodo listIndex sourceIndex destIndex true) w in
     let shortened :=
       delete (Z.to_nat sourceIndex) (Js.elems (items todoList)) in
     promise r = Some (Resolved true)
     ∧ ∃ moved reordered,
         Js.elems (items todoList) !! Z.to_nat sourceIndex = Some moved
         ∧ Js.get (todos (world r)) listIndex = Some reordered
         ∧ Js.elems (items reordered)
           = take (Z.to_nat destIndex) shortened ++ [moved]
             ++ drop (Z.to_nat destIndex) shortened
         ∧ (Z.of_nat (length shortened) ≤ destIndex →
            Js.elems (items reordered) = shortened ++ [moved]))
  ∧ (∀ (A B C : Todo) (name : string) storage sock log,
       let list0 :=
         {| items := Js.Array [Some A; Some B; Some C] ∅; name := name |} in
       let r := run (moveTodo 0 0 2 true)
                    (mkWorld [list0] storage sock log) in
       promise r = Some (Resolved true)
       ∧ (Js.elems ∘ items) <$> todos (world r)
         = [[Some B; Some C; Some A]]).
Proof.
  split.
  - intros w listIndex sourceIndex destIndex todoList _ Hl Hs Hd r shortened.
    subst r. rewrite (run_moveTodo _ _ _ _ _ Hl Hs).
    cbn [world promise committed todos]. split; [done|].
    destruct (valid_get_Some _ _ Hs) as [moved Hmoved].
    assert (Hm : Js.elems (items todoList) !! Z.to_nat sourceIndex = Some moved).
    { unfold Js.get in Hmoved. destruct Hs as [Hs0 _].
      by destruct (Z.ltb_spec sourceIndex 0); [lia|]. }
    exists moved. eexists. split; [done|].
    split; [by apply (setList_get _ _ todoList)|].
    cbn [items withItems].
    rewrite (splice_move _ _ _ moved Hm) by (destruct Hs; lia).
    cbn [Js.elems]. fold shortened.
    assert (Hclamp : ∀ k : nat, (length shortened ≤ k)%nat →
              take k shortened ++ [moved] ++ drop k shortened
              = shortened ++ [moved]).
    { intros k Hk. by rewrite take_ge, drop_ge, app_nil_r by done. }
    split.
    + destruct (Z.le_gt_cases destIndex (Z.of_nat (length shortened))).
      * by rewrite Z.min_l by done.
      * rewrite Z.min_r, Nat2Z.id by lia.
        rewrite (Hclamp (length shortened)) by done.
        by rewrite (Hclamp (Z.to_nat destIndex)) by lia.
    + intros Hge. rewrite Z.min_r, Nat2Z.id by lia. by apply Hclamp.
  - intros A B C name storage sock log list0 r. subst r.
    by rewrite (run_moveTodo _ _ _ _ list0);
      [| | unfold validIndex; simpl; lia].
Qed.

(** C3 at work: moving the first of two items of a list to position 1. *)
Lemma moveTodo_reinserts_witness :
  let first := mkTodo "first" false in
  let second := mkTodo "second" true in
  let errands :=
    {| items := Js.Array [Some first; Some second] ∅; name := "errands" |} in
  let r := run (moveTodo 0 0 1 true)
               (mkWorld [errands] None FakeSocket.new []) in
  let shortened := delete (Z.to_nat 0) (Js.elems (items errands)) in
  promise r = Some (Resolved true)
  ∧ ∃ moved reordered,
      Js.elems (items errands) !! Z.to_nat 0 = Some moved
      ∧ Js.get (todos (world r)) 0 = Some reordered
      ∧ Js.elems (items reordered)
        = take (Z.to_nat 1) shortened ++ [moved] ++ drop (Z.to_nat 1) shortened
      ∧ (Z.of_nat (length shortened) ≤ 1 →
         Js.elems (items reordered) = shortened ++ [moved]).
Proof.
  intros first second errands.
  apply (proj1 moveTodo_reinserts
           (mkWorld [errands] None FakeSocket.new []) 0 0 1 errands).
  - unfold validIndex. simpl. lia.
  - reflexivity.
  - unfold validIndex. simpl. lia.
  - lia.
Defined.

(** C4.  [removeTodo] with a list index out of range, or with an item index
    outside the items of the designated list, rejects with code 400 and
    leaves the world as it was: same lists, same storage, nothing delivered.
    [removeTodo(0, 5)] on a list of two items rejects with 400 and the list
    still has its two items. *)
Theorem removeTodo_invalid_rejected :
  (∀ (w : World) (listIndex todoIndex : Z),
     ¬ validIndex listIndex (todos w)
     ∨ (∃ l, Js.get (todos w) listIndex = Some l
             ∧ ¬ validIndex todoIndex (Js.elems (items l))) →
     let r := run (removeTodo listIndex todoIndex true) w in
     promise r = Some (Rejected (buildErrorResponse 400 "index out of bound"))
     ∧ todos (world r) = todos w
     ∧ localStorage (world r) = localStorage w
     ∧ received (world r) = received w)
  ∧ (∀ (A B : Todo) (name : string) storage sock log,
       let list0 := {| items := Js.Array [Some A; Some B] ∅; name := name |} in
       let r := run (removeTodo 0 5 true) (mkWorld [list0] storage sock log) in
       promise r = Some (Rejected (buildErrorResponse 400 "index out of bound"))
       ∧ todos (world r) = [list0]
       ∧ Js.length (items list0) = 2
       ∧ received (world r) = log).
Proof.
  split.
  - intros w listIndex todoIndex Hbad r. subst r.
    by rewrite (run_removeTodo_invalid _ _ _ Hbad).
  - intros A B name storage sock log list0 r. subst r.
    rewrite run_removeTodo_invalid; [done|].
    right. exists list0. split; [done|]. unfold validIndex. simpl. lia.
Qed.

(** C4 at work: list index 3 on the initial store. *)
Lemma removeTodo_invalid_rejected_witness :
  let w := mkWorld initTodos None (FakeSocket.mk [1%nat] 0) [] in
  let r := run (removeTodo 3 0 true) w in
  promise r = Some (Rejected (buildErrorResponse 400 "index out of bound"))
  ∧ todos (world r) = todos w
  ∧ localStorage (world r) = localStorage w
  ∧ received (world r) = received w.
Proof.
  apply (proj1 removeTodo_invalid_rejected
           (mkWorld initTodos None (FakeSocket.mk [1%nat] 0) []) 3 0).
  left. unfold validIndex. simpl. lia.
Defined.

(** C6.  On a valid list, a successful [addTodo] followed by a successful
    [removeTodo] of the item just added (the last one) gives the list its
    former items back; the whole sequence of lists is as before. *)
Theorem addTodo_then_removeTodo
    (w : World) (listIndex : Z) (item : Todo) (l : TodoList) :
  validIndex listIndex (todos w) →
  Js.get (todos w) listIndex = Some l →
  let r1 := run (addTodo listIndex item true) w in
  let k := Js.length (items l) in
  let r2 := run (removeTodo listIndex k true) (world r1) in
  promise r1 = Some (Resolved true)
  ∧ (∃ l1, Js.get (todos (world r1)) listIndex = Some l1
           ∧ Js.elems (items l1) = Js.elems (items l) ++ [Some item]
           ∧ k = Js.length (items l1) - 1)
  ∧ promise r2 = Some (Resolved true)
  ∧ Js.get (todos (world r2)) listIndex = Some l
  ∧ todos (world r2) = todos w.
Proof.
  intros _ Hl r1 k r2. subst r1 k r2.
  rewrite (run_addTodo _ _ _ _ Hl). cbn [world promise committed todos].
  set (l1 := withItems l (Js.push (items l) item)).
  assert (Hl1 : Js.get (setList listIndex l1 (todos w)) listIndex = Some l1)
    by apply (setList_get _ _ _ _ Hl).
  assert (Hk : validIndex (Js.length (items l)) (Js.elems (items l1))).
  { unfold validIndex, Js.length. simpl. rewrite length_app. simpl. lia. }
  rewrite (run_removeTodo _ _ _ l1) by done.
  cbn [world promise committed todos].
  assert (Hback : setList listIndex
                    (withItems l1
                       (Js.array_splice (Js.length (items l)) 1 [] (items l1)).2)
                    (setList listIndex l1 (todos w)) = todos w).
  { subst l1. unfold withItems. cbn [items name]. rewrite splice_push.
    by rewrite TodoList_eta, setList_twice, setList_same. }
  rewrite Hback. repeat split; [|done].
  exists l1. split; [done|]. subst l1. unfold Js.length. simpl.
  split; [done|]. rewrite length_app. simpl. lia.
Qed.

(** C6 at work: adding to, then removing from, the initial list. *)
Lemma addTodo_then_removeTodo_witness :
  let w := mkWorld initTodos None (FakeSocket.mk [1%nat] 0) [] in
  let item := mkTodo "milk" false in
  let l := {| items := Js.empty; name := "my first list" |} in
  let r1 := run (addTodo 0 item true) w in
  let k := Js.length (items l) in
  let r2 := run (removeTodo 0 k true) (world r1) in
  promise r1 = Some (Resolved true)
  ∧ (∃ l1, Js.get (todos (world r1)) 0 = Some l1
           ∧ Js.elems (items l1) = Js.elems (items l) ++ [Some item]
           ∧ k = Js.length (items l1) - 1)
  ∧ promise r2 = Some (Resolved true)
  ∧ Js.get (todos (world r2)) 0 = Some l
  ∧ todos (world r2) = todos w.
Proof.
  apply (addTodo_then_removeTodo
           (mkWorld initTodos None (FakeSocket.mk [1%nat] 0) []) 0
           (mkTodo "milk" false)
           {| items := Js.empty; name := "my first list" |}).
  - unfold validIndex. simpl. lia.
  - reflexivity.
Defined.

(** Taking an element out and putting it back at the same position. *)
Lemma splice_move_same {A : Type} (a : Js.array A) (i : Z) :
  validIndex i (Js.elems a) →
  let taken := Js.array_splice i 1 [] a in
  (Js.array_splice i 0 taken.1 taken.2).2 = a.
Proof.
  intros Hi. pose proof Hi as [Hi0 Hlen].
  destruct (lookup_lt_is_Some_2 (Js.elems a) (Z.to_nat i)) as [x Hx]; [lia|].
  cbv zeta. rewrite (splice_move a i i x Hx) by done.
  destruct a as [es ps]. cbn [Js.elems Js.props] in *. f_equal.
  assert (Hshort : length (delete (Z.to_nat i) es) = (length es - 1)%nat)
    by (apply length_delete; eauto).
  replace (Z.to_nat (Z.min i _)) with (Z.to_nat i) by lia.
  rewrite delete_take_drop.
  rewrite take_app_length' by (rewrite length_take; lia).
  rewrite drop_app_length' by (rewrite length_take; lia).
  by apply take_drop_middle.
Qed.

(** C7.  [moveTodo] with equal source and destination, both valid, resolves
    with [true] and leaves the items (and the whole sequence) as they were;
    the sequence is nevertheless written to the storage and a [moveTodo]
    message is delivered to every listener. *)
Theorem moveTodo_same_index
    (w : World) (listIndex sourceIndex : Z) (todoList : TodoList) :
  validIndex listIndex (todos w) →
  Js.get (todos w) listIndex = Some todoList →
  validIndex sourceIndex (Js.elems (items todoList)) →
  let r := run (moveTodo listIndex sourceIndex sourceIndex true) w in
  promise r = Some (Resolved true)
  ∧ Js.get (todos (world r)) listIndex = Some todoList
  ∧ todos (world r) = todos w
  ∧ localStorage (world r) = Some (ArrayText (stringify (todos w)))
  ∧ received (world r)
    = received w
      ++ broadcast (socket w) (MoveTodoMessage listIndex sourceIndex sourceIndex).
Proof.
  intros _ Hl Hs r. subst r. rewrite (run_moveTodo _ _ _ _ _ Hl Hs).
  cbv zeta. rewrite (splice_move_same _ _ Hs).
  unfold withItems. rewrite TodoList_eta, (setList_same _ _ _ Hl).
  by cbn [world promise committed todos localStorage received].
Qed.

(** C7 at work: the only item of a list moved onto itself. *)
Lemma moveTodo_same_index_witness :
  let only := {| items := Js.Array [Some (mkTodo "call" false)] ∅;
                 name := "today" |} in
  let w := mkWorld [only] None (FakeSocket.mk [4%nat] 0) [] in
  let r := run (moveTodo 0 0 0 true) w in
  promise r = Some (Resolved true)
  ∧ Js.get (todos (world r)) 0 = Some only
  ∧ todos (world r) = todos w
  ∧ localStorage (world r) = Some (ArrayText (stringify (todos w)))
  ∧ received (world r)
    = received w ++ broadcast (socket w) (MoveTodoMessage 0 0 0).
Proof.
  intros only.
  apply (moveTodo_same_index
           (mkWorld [only] None (FakeSocket.mk [4%nat] 0) []) 0 0 only).
  - unfold validIndex. simpl. lia.
  - reflexivity.
  - unfold validIndex. simpl. lia.
Defined.

(** C10.  A successful [addTodo], [removeTodo], [moveTodo] or [editTodo]
    with valid indices on list [listIndex] keeps the number of lists, every
    list at another index and the name of the list at [listIndex]: only the
    items of that list may change. *)
Theorem item_operations_frame (w : World) (listIndex : Z) (l : TodoList) :
  validIndex listIndex (todos w) →
  Js.get (todos w) listIndex = Some l →
  (∀ item,
     let r := run (addTodo listIndex item true) w in
     promise r = Some (Resolved true)
     ∧ onlyItemsChanged listIndex (todos w) (todos (world r)))
  ∧ (∀ todoIndex, validIndex todoIndex (Js.elems (items l)) →
     let r := run (removeTodo listIndex todoIndex true) w in
     promise r = Some (Resolved true)
     ∧ onlyItemsChanged listIndex (todos w) (todos (world r)))
  ∧ (∀ sourceIndex destIndex, validIndex sourceIndex (Js.elems (items l)) →
     let r := run (moveTodo listIndex sourceIndex destIndex true) w in
     promise r = Some (Resolved true)
     ∧ onlyItemsChanged listIndex (todos w) (todos (world r)))
  ∧ (∀ itemIndex newValue, validIndex itemIndex (Js.elems (items l)) →
     let r := run (editTodo listIndex itemIndex newValue true) w in
     promise r = Some (Resolved true)
     ∧ onlyItemsChanged listIndex (todos w) (todos (world r))).
Proof.
  intros _ Hl. split; [|split; [|split]].
  - intros item r. subst r. rewrite (run_addTodo _ _ _ _ Hl).
    split; [done | by apply setList_frame].
  - intros todoIndex Hk r. subst r. rewrite (run_removeTodo _ _ _ _ Hl Hk).
    split; [done | by apply setList_frame].
  - intros sourceIndex destIndex Hk r. subst r.
    rewrite (run_moveTodo _ _ _ _ _ Hl Hk).
    split; [done | by apply setList_frame].
  - intros itemIndex newValue Hk r. subst r.
    rewrite (run_editTodo _ _ _ _ _ Hl), (valid_tests _ _ Hk).
    split; [done | by apply setList_frame].
Qed.

(** C10 at work: the second of two lists is the target. *)
Lemma item_operations_frame_witness :
  let chores := {| items := Js.Array [Some (mkTodo "sweep" false)] ∅;
                   name := "chores" |} in
  let w := mkWorld (initTodos ++ [chores]) None FakeSocket.new [] in
  let r := run (editTodo 1 0 (mkTodo "sweep" true) true) w in
  promise r = Some (Resolved true)
  ∧ onlyItemsChanged 1 (todos w) (todos (world r)).
Proof.
  intros chores.
  apply (item_operations_frame
           (mkWorld (initTodos ++ [chores]) None FakeSocket.new []) 1 chores).
  - unfold validIndex. simpl. lia.
  - reflexivity.
  - unfold validIndex. simpl. lia.
Defined.

(** * Further properties of the code *)

(** ** [splice] in general *)

Section SpliceLemmas.
Context {A : Type}.
Implicit Types (l ins : list A) (start deleteCount : Z).

(** [splice] loses nothing and invents nothing: what it removed together
    with what it left is what was there together with what was inserted. *)
Lemma splice_conserves start deleteCount ins l :
  let out := Js.splice start deleteCount ins l in
  out.1 ++ out.2 ≡ₚ ins ++ l.
Proof.
  unfold Js.splice. cbn [fst snd].
  set (d := Z.to_nat (Z.min _ _)). set (s := Z.to_nat _).
  assert (Hl : take s l ++ take d (drop s l) ++ drop (s + d) l = l)
    by (by rewrite <- drop_drop, !take_drop).
  transitivity (ins ++ take s l ++ take d (drop s l) ++ drop (s + d) l);
    [| by rewrite Hl].
  solve_Permutation.
Qed.

(** Insertion with a negative position counts from the end. *)
Lemma splice_insert_negative l i ins :
  i < 0 →
  let d := Z.to_nat (Z.max (Z.of_nat (length l) + i) 0) in
  Js.splice i 0 ins l = ([], take d l ++ ins ++ drop d l).
Proof.
  unfold Js.splice. intros Hneg. cbv zeta.
  destruct (Z.ltb_spec i 0); [|lia].
  replace (Z.to_nat (Z.min (Z.max 0 0) _)) with 0%nat by lia.
  by rewrite take_0, Nat.add_0_r.
Qed.

End SpliceLemmas.

(** Discharge a side condition on concrete data. *)
Ltac concrete :=
  unfold validIndex, withinLengthBound, Js.length; simpl; lia.

(** ** The store, operation by operation *)

Lemma invalid_get_None {A} (l : list A) (i : Z) :
  ¬ validIndex i l → Js.get l i = None.
Proof.
  intros Hi. destruct (Js.get l i) eqn:Hg; [|done].
  by apply get_Some_valid in Hg.
Qed.



(** X2.  [addTodo] with a list index out of range rejects with (400,
    "index out of bound") and changes nothing: the callback goes past the
    rejection but stops at the missing list, before any write or message. *)
Theorem addTodo_invalid_rejected (w : World) (listIndex : Z) (item : Todo) :
  ¬ validIndex listIndex (todos w) →
  run (addTodo listIndex item true) w
  = mkRun w (Some (Rejected (buildErrorResponse 400 "index out of bound"))).
Proof.
  intros Hi. unfold addTodo. callback. rewrite (invalid_tests _ _ Hi). callback.
  by rewrite (invalid_get_None _ _ Hi).
Qed.

(** X2 at work: list index -1 on the sample store. *)
Lemma addTodo_invalid_rejected_witness :
  run (addTodo (-1) (mkTodo "salt" false) true) sampleWorld
  = mkRun sampleWorld
          (Some (Rejected (buildErrorResponse 400 "index out of bound"))).
Proof. apply addTodo_invalid_rejected. concrete. Defined.







(** X6.  [moveTodo] and [editTodo] with a list index out of range reject
    with code 400 (descriptions "Could not find todolist" and "could not
    find todolist") and change nothing; so does [moveTodo] with a source
    index outside the items of a valid list (description "index out of
    bound"). *)
Theorem moveTodo_editTodo_invalid_rejected (w : World) (listIndex : Z) :
  (¬ validIndex listIndex (todos w) →
   (∀ sourceIndex destIndex,
      run (moveTodo listIndex sourceIndex destIndex true) w
      = mkRun w (Some (Rejected
                         (buildErrorResponse 400 "Could not find todolist"))))
   ∧ (∀ itemIndex newValue,
        run (editTodo listIndex itemIndex newValue true) w
        = mkRun w (Some (Rejected
                           (buildErrorResponse 400 "could not find todolist")))))
  ∧ (∀ l sourceIndex destIndex,
       Js.get (todos w) listIndex = Some l →
       ¬ validIndex sourceIndex (Js.elems (items l)) →
       run (moveTodo listIndex sourceIndex destIndex true) w
       = mkRun w (Some (Rejected
                          (buildErrorResponse 400 "index out of bound")))).
Proof.
  split.
  - intros Hi. apply invalid_get_None in Hi. split; intros.
    + unfold moveTodo. callback. by rewrite Hi.
    + unfold editTodo. callback. by rewrite Hi.
  - intros l sourceIndex destIndex Hl Hs. unfold moveTodo. callback.
    rewrite Hl, (valid_tests _ _ (get_Some_valid _ _ _ Hl)).
    unfold Js.length. rewrite <- orb_assoc, (invalid_tests _ _ Hs). done.
Qed.

(** X6 at work: no list 2 in the sample store. *)
Lemma moveTodo_editTodo_invalid_rejected_witness :
  run (moveTodo 2 0 1 true) sampleWorld
  = mkRun sampleWorld
          (Some (Rejected (buildErrorResponse 400 "Could not find todolist"))).
Proof.
  apply (proj1 (moveTodo_editTodo_invalid_rejected sampleWorld 2)). concrete.
Defined.

(** [moveTodo] on valid list and source, whatever the destination. *)
Lemma moved_items {A : Type} (a : Js.array A) (sourceIndex destIndex : Z) :
  let taken := Js.array_splice sourceIndex 1 [] a in
  let moved := (Js.array_splice destIndex 0 taken.1 taken.2).2 in
  Js.elems moved ≡ₚ Js.elems a ∧ Js.props moved = Js.props a.
Proof.
  destruct a as [es ps]. unfold Js.array_splice. cbn [Js.elems Js.props].
  pose proof (splice_conserves sourceIndex 1 [] es) as Hout.
  destruct (Js.splice sourceIndex 1 [] es) as [removed rest].
  cbn [fst snd Js.elems Js.props] in *.
  pose proof (splice_conserves destIndex 0 removed rest) as Hin.
  assert (Hnone : (Js.splice destIndex 0 removed rest).1 = []).
  { unfold Js.splice. cbn [fst].
    replace (Z.to_nat (Z.min (Z.max 0 0) _)) with 0%nat by lia.
    apply take_0. }
  destruct (Js.splice destIndex 0 removed rest) as [none result].
  cbn [fst snd Js.elems Js.props] in *. subst none.
  split; [|done]. by rewrite <- Hout, <- Hin.
Qed.

(** X7.  [moveTodo] on a valid list and source index never loses or
    duplicates an item, whatever the destination index (negative, in range
    or beyond the end): afterwards the list holds the same slots in some
    order, and keeps its length, its name and its other properties. *)
Theorem moveTodo_keeps_items
    (w : World) (listIndex sourceIndex destIndex : Z) (l : TodoList) :
  Js.get (todos w) listIndex = Some l →
  validIndex sourceIndex (Js.elems (items l)) →
  let r := run (moveTodo listIndex sourceIndex destIndex true) w in
  promise r = Some (Resolved true)
  ∧ ∃ l', Js.get (todos (world r)) listIndex = Some l'
          ∧ Js.elems (items l') ≡ₚ Js.elems (items l)
          ∧ Js.length (items l') = Js.length (items l)
          ∧ Js.props (items l') = Js.props (items l)
          ∧ name l' = name l.
Proof.
  intros Hl Hs r. subst r. rewrite (run_moveTodo _ _ _ _ _ Hl Hs).
  cbn [world promise committed todos]. split; [done|].
  eexists. split; [by apply (setList_get _ _ l)|].
  destruct (moved_items (items l) sourceIndex destIndex) as [Hperm Hprops].
  cbn [items withItems name]. unfold Js.length.
  split; [done|]. split; [by rewrite Hperm|]. done.
Qed.

(** X7 at work: destination -7 on the three groceries. *)
Lemma moveTodo_keeps_items_witness :
  promise (run (moveTodo 0 2 (-7) true) sampleWorld) = Some (Resolved true).
Proof.
  apply (moveTodo_keeps_items sampleWorld 0 2 (-7)
           (mkTodoList (Js.Array [Some (mkTodo "milk" false);
                                  Some (mkTodo "eggs" true);
                                  Some (mkTodo "tea" false)] ∅)
                       "groceries")).
  - reflexivity.
  - concrete.
Defined.

(** X8.  A negative [destIndex] is counted by [moveTodo] from the end of
    the shortened sequence: the item lands at position
    [max (length - 1 + destIndex) 0], so -1 puts it just before the last of
    the remaining items and a large negative index puts it first. *)
Theorem moveTodo_negative_destination
    (w : World) (listIndex sourceIndex destIndex : Z) (l : TodoList) :
  Js.get (todos w) listIndex = Some l →
  validIndex sourceIndex (Js.elems (items l)) →
  destIndex < 0 →
  let r := run (moveTodo listIndex sourceIndex destIndex true) w in
  let shortened := delete (Z.to_nat sourceIndex) (Js.elems (items l)) in
  let position := Z.to_nat (Z.max (Js.length (items l) - 1 + destIndex) 0) in
  ∃ moved,
    Js.elems (items l) !! Z.to_nat sourceIndex = Some moved
    ∧ Js.get (todos (world r)) listIndex
      = Some {| items := Js.Array (take position shortened ++ [moved]
                                   ++ drop position shortened)
                                  (Js.props (items l));
                name := name l |}.
Proof.
  intros Hl Hs Hd r shortened position. subst r shortened position.
  rewrite (run_moveTodo _ _ _ _ _ Hl Hs). cbn [world committed todos].
  pose proof Hs as [Hs0 Hlen].
  destruct (lookup_lt_is_Some_2 (Js.elems (items l)) (Z.to_nat sourceIndex))
    as [moved Hm]; [lia|].
  exists moved. split; [done|].
  rewrite (setList_get _ _ l) by done. unfold withItems. do 2 f_equal.
  destruct (items l) as [es ps]. unfold Js.array_splice, Js.length in *.
  cbn [Js.elems Js.props] in *. rewrite (splice_remove _ _ Hs).
  cbn [fst snd]. rewrite (splice_insert_negative _ _ _ Hd). cbn [snd].
  rewrite (drop_S _ _ _ Hm). cbn [take].
  assert (Hshort : length (delete (Z.to_nat sourceIndex) es)
                   = (length es - 1)%nat)
    by (apply length_delete; eauto).
  cbn [Js.elems Js.props take]. rewrite Hshort.
  by replace (Z.of_nat (length es - 1)) with (Z.of_nat (length es) - 1) by lia.
Qed.

(** X8 at work: milk moved to -1 lands between eggs and tea. *)
Lemma moveTodo_negative_destination_witness :
  ∃ moved : option Todo,
    [Some (mkTodo "milk" false); Some (mkTodo "eggs" true);
     Some (mkTodo "tea" false)] !! Z.to_nat 0 = Some moved
    ∧ Js.get (todos (world (run (moveTodo 0 0 (-1) true) sampleWorld))) 0
      = Some {| items :=
                  Js.Array (take 1 [Some (mkTodo "eggs" true);
                                    Some (mkTodo "tea" false)]
                            ++ [moved]
                            ++ drop 1 [Some (mkTodo "eggs" true);
                                       Some (mkTodo "tea" false)]) ∅;
                name := "groceries" |}.
Proof.
  apply (moveTodo_negative_destination sampleWorld 0 0 (-1)
           (mkTodoList (Js.Array [Some (mkTodo "milk" false);
                                  Some (mkTodo "eggs" true);
                                  Some (mkTodo "tea" false)] ∅)
                       "groceries")).
  - reflexivity.
  - concrete.
  - lia.
Defined.

(** ** Storage round trips *)

Section StorageLemmas.
Implicit Types (ts : list TodoList) (b : Blob) (l : TodoList).

Lemma parse_stringify ts : parse (stringify ts) = reloaded <$> ts.
Proof.
  unfold parse, stringify. induction ts as [|l ts IH]; [done|].
  simpl. by rewrite IH.
Qed.

Lemma stringify_parse b : stringify (parse b) = b.
Proof.
  unfold parse, stringify. induction b as [|[n es] b IH]; [done|].
  simpl. by rewrite IH.
Qed.

Lemma reloaded_plain l : plainList l → reloaded l = l.
Proof. destruct l as [[es ps] n]. intros [_ Hp]. simpl in Hp. by subst ps. Qed.

Lemma get_fmap {A B} (f : A → B) (xs : list A) (i : Z) :
  Js.get (f <$> xs) i = f <$> Js.get xs i.
Proof.
  unfold Js.get. destruct (i <? 0); [done|]. apply list_lookup_fmap.
Qed.

End StorageLemmas.

Lemma stringify_setList (ts : list TodoList) (i : Z) (l : TodoList) :
  stringify (setList i l ts)
  = <[Z.to_nat i := (name l, Js.elems (items l))]> (stringify ts).
Proof.
  unfold stringify, setList.
  apply (list_fmap_insert (λ l, (name l, Js.elems (items l)))).
Qed.

Lemma stringify_get (ts : list TodoList) (i : Z) (l : TodoList) :
  Js.get ts i = Some l →
  stringify ts !! Z.to_nat i = Some (name l, Js.elems (items l)).
Proof.
  unfold Js.get, stringify. destruct (i <? 0); [done|]. intros Hl.
  rewrite (list_lookup_fmap (λ l, (name l, Js.elems (items l)))).
  by rewrite Hl.
Qed.

(** X10.  [editTodo] with an item index that is not an array index
    (negative, or at least 2^32 - 1) sets a property that the storage never
    sees: in memory the value can be read back at that index while slots and
    length are as before, the text written to the storage is the text of the
    sequence before the call, and a store rebuilt from it has nothing at
    that index. *)
Theorem editTodo_off_array_not_persisted
    (w : World) (listIndex itemIndex : Z) (newValue : Todo) (l : TodoList) :
  Js.get (todos w) listIndex = Some l →
  itemIndex < 0 ∨ 4294967295 ≤ itemIndex →
  let r := run (editTodo listIndex itemIndex newValue true) w in
  (∃ l', Js.get (todos (world r)) listIndex = Some l'
         ∧ Js.read (items l') itemIndex = Some newValue
         ∧ Js.elems (items l') = Js.elems (items l))
  ∧ localStorage (world r) = Some (ArrayText (stringify (todos w)))
  ∧ (∃ l', Js.get (constructor (localStorage (world r))) listIndex = Some l'
           ∧ Js.read (items l') itemIndex = None).
Proof.
  intros Hl Hoff r. subst r. rewrite (run_editTodo _ _ _ _ _ Hl).
  cbn [world committed todos localStorage].
  assert (Hidx : Js.is_index itemIndex = false) by (unfold Js.is_index; lia).
  assert (Hsame : Js.elems (Js.write (items l) itemIndex newValue)
                  = Js.elems (items l)) by (unfold Js.write; by rewrite Hidx).
  assert (Htext : stringify (setList listIndex
                     (withItems l (Js.write (items l) itemIndex newValue))
                     (todos w)) = stringify (todos w)).
  { rewrite stringify_setList. cbn [withItems name items]. rewrite Hsame.
    apply list_insert_id. by apply stringify_get. }
  split; [|split].
  - eexists. split; [by apply (setList_get _ _ l)|].
    split; [apply read_write | done].
  - by rewrite Htext.
  - rewrite Htext. simpl. rewrite parse_stringify, get_fmap, Hl. simpl.
    eexists. split; [done|]. unfold Js.read. by rewrite Hidx.
Qed.

(** X10 at work: index -1 of the groceries. *)
Lemma editTodo_off_array_not_persisted_witness :
  localStorage (world (run (editTodo 0 (-1) (mkTodo "ghost" false) true)
                           sampleWorld))
  = Some (ArrayText (stringify (todos sampleWorld))).
Proof.
  apply (editTodo_off_array_not_persisted sampleWorld 0 (-1)
           (mkTodo "ghost" false)
           (mkTodoList (Js.Array [Some (mkTodo "milk" false);
                                  Some (mkTodo "eggs" true);
                                  Some (mkTodo "tea" false)] ∅)
                       "groceries")).
  - reflexivity.
  - lia.
Defined.

(** X11.  [editTodo] with an item index at or beyond the end of the list
    (and below 2^32 - 1) makes the list [itemIndex + 1] long: the old slots
    are kept, the new value is the last slot and the slots in between are
    empty, so that a list edited strictly beyond its end is no longer
    plain. *)
Theorem editTodo_beyond_end_pads
    (w : World) (listIndex itemIndex : Z) (newValue : Todo) (l : TodoList) :
  Js.get (todos w) listIndex = Some l →
  Js.length (items l) ≤ itemIndex < 4294967295 →
  let r := run (editTodo listIndex itemIndex newValue true) w in
  ∃ l', Js.get (todos (world r)) listIndex = Some l'
        ∧ Js.elems (items l')
          = Js.elems (items l)
            ++ replicate (Z.to_nat (itemIndex - Js.length (items l))) None
            ++ [Some newValue]
        ∧ Js.length (items l') = itemIndex + 1
        ∧ (Js.length (items l) < itemIndex → ¬ plainList l').
Proof.
  intros Hl [Hge Hlt] r. subst r. rewrite (run_editTodo _ _ _ _ _ Hl).
  cbn [world committed todos]. eexists.
  split; [by apply (setList_get _ _ l)|]. cbn [withItems items].
  unfold Js.length in *.
  assert (Hpad : Js.elems (Js.write (items l) itemIndex newValue)
                 = Js.elems (items l)
                   ++ replicate (Z.to_nat (itemIndex
                                           - Z.of_nat (length (Js.elems (items l)))))
                                None
                   ++ [Some newValue]).
  { unfold Js.write.
    replace (Js.is_index itemIndex) with true by (unfold Js.is_index; lia).
    destruct (Nat.ltb_spec (Z.to_nat itemIndex) (length (Js.elems (items l))));
      [lia|]. cbn [Js.elems]. do 3 f_equal. lia. }
  split; [done|]. rewrite Hpad. split.
  - rewrite !length_app, length_replicate. simpl. lia.
  - intros Hgap [Hall _]. cbn [withItems items] in Hall. rewrite Hpad in Hall.
    apply Forall_app in Hall as [_ Hall].
    apply Forall_app in Hall as [Hall _].
    destruct (Z.to_nat (itemIndex - Z.of_nat (length (Js.elems (items l)))))
      as [|n] eqn:Hn; [lia|].
    simpl in Hall. apply Forall_cons in Hall as [[x Hx] _]. done.
Qed.

(** X11 at work: item 3 of the one-item chores list. *)
Lemma editTodo_beyond_end_pads_witness :
  ∃ l', Js.get (todos (world (run (editTodo 1 3 (mkTodo "dust" false) true)
                                  sampleWorld))) 1 = Some l'
        ∧ Js.elems (items l')
          = [Some (mkTodo "sweep" false)]
            ++ replicate (Z.to_nat (3 - 1)) None ++ [Some (mkTodo "dust" false)]
        ∧ Js.length (items l') = 3 + 1
        ∧ (1 < 3 → ¬ plainList l').
Proof.
  apply (editTodo_beyond_end_pads sampleWorld 1 3 (mkTodo "dust" false)
           (mkTodoList (Js.Array [Some (mkTodo "sweep" false)] ∅) "chores")).
  - reflexivity.
  - concrete.
Defined.

(** ** Reading the lists *)

Lemma map_slots_id {A : Type} (es : list (option A)) :
  List.map (option_map (λ x : A, x)) es = es.
Proof. induction es as [|[x|] es IH]; simpl; by rewrite ?IH. Qed.

Lemma run_getTodoLists (w : World) :
  run (getTodoLists true) w = mkRun w (Some (Resolved (reloaded <$> todos w))).
Proof.
  unfold getTodoLists. callback. destruct w as [ts st sk log]. simpl.
  do 3 f_equal. induction ts as [|l ts IH]; [done|].
  simpl. rewrite IH. unfold reloaded, Js.map. by rewrite map_slots_id.
Qed.

(** X12.  [getTodoLists] on success changes nothing in the store, the
    storage or the socket and delivers nothing; it resolves with as many
    lists as the store has, with the same names and the same numbers of
    items, whose arrays carry no stray property; on a plain store the
    response is equal to the sequence of the store. *)
Theorem getTodoLists_copies (w : World) :
  let r := run (getTodoLists true) w in
  world r = w
  ∧ ∃ response,
      promise r = Some (Resolved response)
      ∧ name <$> response = name <$> todos w
      ∧ (Js.length ∘ items) <$> response = (Js.length ∘ items) <$> todos w
      ∧ Forall (λ l, Js.props (items l) = ∅) response
      ∧ (plain (todos w) → response = todos w).
Proof.
  intros r. subst r. rewrite run_getTodoLists. split; [done|].
  eexists. split; [done|]. cbn [world promise].
  induction (todos w) as [|l ts (Hn & Hl & Hp & Heq)]; [by repeat split|].
  rewrite !fmap_cons. repeat split.
  - by rewrite Hn.
  - by rewrite Hl.
  - by constructor.
  - intros Hplain. apply Forall_cons in Hplain as [Hl0 Hts].
    by rewrite reloaded_plain, Heq.
Qed.

(** X12 at work: reading the sample store. *)
Lemma getTodoLists_copies_witness :
  promise (run (getTodoLists true) sampleWorld) = Some (Resolved sampleLists).
Proof.
  destruct (getTodoLists_copies sampleWorld)
    as (_ & response & Hresolved & _ & _ & _ & Hplain).
  rewrite Hresolved, Hplain; [done|].
  repeat constructor; simpl; eauto.
Defined.

(** ** Every call *)

Section ServeLemmas.
Implicit Types (w : World) (q : Request).

Lemma run_addTodo_invalid w listIndex item :
  ¬ validIndex listIndex (todos w) →
  run (addTodo listIndex item true) w
  = mkRun w (Some (Rejected (buildErrorResponse 400 "index out of bound"))).
Proof.
  intros Hi. unfold addTodo. callback. rewrite (invalid_tests _ _ Hi). callback.
  by rewrite (invalid_get_None _ _ Hi).
Qed.

Lemma run_moveTodo_no_list w listIndex sourceIndex destIndex :
  Js.get (todos w) listIndex = None →
  run (moveTodo listIndex sourceIndex destIndex true) w
  = mkRun w (Some (Rejected (buildErrorResponse 400 "Could not find todolist"))).
Proof. intros Hi. unfold moveTodo. callback. by rewrite Hi. Qed.

Lemma run_moveTodo_no_source w listIndex sourceIndex destIndex l :
  Js.get (todos w) listIndex = Some l →
  ¬ validIndex sourceIndex (Js.elems (items l)) →
  run (moveTodo listIndex sourceIndex destIndex true) w
  = mkRun w (Some (Rejected (buildErrorResponse 400 "index out of bound"))).
Proof.
  intros Hl Hs. unfold moveTodo. callback.
  rewrite Hl, (valid_tests _ _ (get_Some_valid _ _ _ Hl)).
  unfold Js.length. by rewrite <- orb_assoc, (invalid_tests _ _ Hs).
Qed.

Lemma run_editTodo_no_list w listIndex itemIndex newValue :
  Js.get (todos w) listIndex = None →
  run (editTodo listIndex itemIndex newValue true) w
  = mkRun w (Some (Rejected (buildErrorResponse 400 "could not find todolist"))).
Proof. intros Hi. unfold editTodo. callback. by rewrite Hi. Qed.

Lemma serve_failure q w :
  serve q false w
  = (w, Some (Rejected (buildErrorResponse 500 "internal error"))).
Proof. by destruct q. Qed.

(** A callback either leaves the world alone or commits once. *)
Lemma serve_cases q sample w :
  (∃ s, serve q sample w = (w, Some s))
  ∨ (∃ ts message s, serve q sample w = (committed w ts message, Some s)).
Proof.
  destruct sample; [|left; eexists; apply serve_failure].
  destruct q as [|name|i|i item|i k|i s d|i k v]; unfold serve.
  - left. rewrite run_getTodoLists. by eexists.
  - right. rewrite run_createList. by do 3 eexists.
  - right. rewrite run_deleteList. unfold settled. cbn [world promise].
    destruct ((i <? 0) || (i >=? Z.of_nat (length (todos w))));
      by do 3 eexists.
  - destruct (Js.get (todos w) i) as [l|] eqn:Hl.
    + right. rewrite (run_addTodo _ _ _ _ Hl). by do 3 eexists.
    + left. rewrite run_addTodo_invalid; [by eexists|].
      intros [x Hx]%valid_get_Some. congruence.
  - destruct (Js.get (todos w) i) as [l|] eqn:Hl.
    + destruct (decide (0 ≤ k < Z.of_nat (length (Js.elems (items l)))))
        as [Hk|Hk].
      * right. rewrite (run_removeTodo _ _ _ _ Hl Hk). by do 3 eexists.
      * left. rewrite run_removeTodo_invalid; [by eexists|]. right. eauto.
    + left. rewrite run_removeTodo_invalid; [by eexists|]. left.
      intros [x Hx]%valid_get_Some. congruence.
  - destruct (Js.get (todos w) i) as [l|] eqn:Hl.
    + destruct (decide (0 ≤ s < Z.of_nat (length (Js.elems (items l)))))
        as [Hs|Hs].
      * right. rewrite (run_moveTodo _ _ _ _ _ Hl Hs). by do 3 eexists.
      * left. rewrite (run_moveTodo_no_source _ _ _ _ _ Hl Hs). by eexists.
    + left. rewrite (run_moveTodo_no_list _ _ _ _ Hl). by eexists.
  - destruct (Js.get (todos w) i) as [l|] eqn:Hl.
    + right. rewrite (run_editTodo _ _ _ _ _ Hl). unfold settled.
      cbn [world promise].
      destruct ((k <? 0) || (k >=? Z.of_nat (length (Js.elems (items l)))));
        by do 3 eexists.
    + left. rewrite (run_editTodo_no_list _ _ _ _ Hl). by eexists.
Qed.

End ServeLemmas.

(** X13.  When the success sample fails, every method rejects with (500,
    "internal error") and leaves the lists, the storage, the socket and the
    listeners alone. *)
Theorem sampled_failure_rejects (q : Request) (w : World) :
  serve q false w
  = (w, Some (Rejected (buildErrorResponse 500 "internal error"))).
Proof. by destruct q. Qed.

(** ** Plain lists *)

Section PlainLemmas.
Implicit Types (ts : list TodoList) (l : TodoList).

Lemma splice_Forall {A} (P : A → Prop) start deleteCount (ins l0 : list A) :
  Forall P l0 → Forall P ins →
  Forall P (Js.splice start deleteCount ins l0).2.
Proof.
  intros Hl Hins. unfold Js.splice. cbn [snd].
  repeat apply Forall_app_2; auto using Forall_take, Forall_drop.
Qed.

Lemma splice_removed_Forall {A} (P : A → Prop) start deleteCount
    (ins l0 : list A) :
  Forall P l0 → Forall P (Js.splice start deleteCount ins l0).1.
Proof.
  intros Hl. unfold Js.splice. cbn [fst]. auto using Forall_take, Forall_drop.
Qed.

Lemma plain_get ts i l : plain ts → Js.get ts i = Some l → plainList l.
Proof.
  unfold plain, Js.get. intros Hts. destruct (i <? 0); [done|].
  by apply Forall_lookup_1.
Qed.

Lemma plain_setList ts i l : plain ts → plainList l → plain (setList i l ts).
Proof. intros. by apply Forall_insert. Qed.

Lemma plainList_splice l start deleteCount ins :
  plainList l → Forall is_Some ins →
  plainList (withItems l
               (Js.array_splice start deleteCount ins (items l)).2).
Proof.
  intros [Hall Hprops] Hins. unfold Js.array_splice.
  pose proof (splice_Forall is_Some start deleteCount ins _ Hall Hins) as H.
  destruct (Js.splice start deleteCount ins (Js.elems (items l))).
  by split.
Qed.

End PlainLemmas.

(** Look at the world a callback has left. *)
Ltac seen := unfold settled; cbn [world promise committed todos fst snd].

(** X17.  Lists stay plain (every slot a todo, no stray property): from a
    plain store every call leads to a plain store, provided it is not an
    [editTodo] whose item index misses the items of the list it names. *)
Theorem calls_keep_lists_plain (q : Request) (sample : bool) (w : World) :
  plain (todos w) →
  editsInRange q (todos w) →
  plain (todos (serve q sample w).1).
Proof.
  intros Hplain Hedit. destruct sample; [|by rewrite serve_failure].
  destruct q as [|name|i|i item|i k|i s d|i k v]; unfold serve.
  - by rewrite run_getTodoLists.
  - rewrite run_createList. seen. apply Forall_app. split; [done|].
    by repeat constructor.
  - rewrite run_deleteList. seen. by apply splice_Forall.
  - destruct (Js.get (todos w) i) as [l|] eqn:Hl.
    + rewrite (run_addTodo _ _ _ _ Hl). seen. apply plain_setList; [done|].
      destruct (plain_get _ _ _ Hplain Hl) as [Hall Hprops].
      split; [|done]. apply Forall_app. split; [done|]. by repeat constructor.
    + rewrite run_addTodo_invalid; [done|].
      intros [x Hx]%valid_get_Some. congruence.
  - destruct (Js.get (todos w) i) as [l|] eqn:Hl.
    + destruct (decide (0 ≤ k < Z.of_nat (length (Js.elems (items l)))))
        as [Hk|Hk].
      * rewrite (run_removeTodo _ _ _ _ Hl Hk). seen.
        apply plain_setList; [done|].
        apply plainList_splice; [by apply (plain_get _ _ _ Hplain Hl) | done].
      * rewrite run_removeTodo_invalid; [done|]. right. eauto.
    + rewrite run_removeTodo_invalid; [done|]. left.
      intros [x Hx]%valid_get_Some. congruence.
  - destruct (Js.get (todos w) i) as [l|] eqn:Hl.
    + destruct (decide (0 ≤ s < Z.of_nat (length (Js.elems (items l)))))
        as [Hs|Hs].
      * rewrite (run_moveTodo _ _ _ _ _ Hl Hs). seen.
        apply plain_setList; [done|].
        destruct (plain_get _ _ _ Hplain Hl) as [Hall Hprops].
        unfold Js.array_splice.
        pose proof (splice_Forall is_Some s 1 [] _ Hall (Forall_nil_2 _)) as Hr.
        pose proof (splice_removed_Forall is_Some s 1 [] _ Hall) as Ht.
        destruct (Js.splice s 1 [] (Js.elems (items l))) as [todo rest].
        cbn [fst snd Js.elems Js.props] in *.
        pose proof (splice_Forall is_Some d 0 todo _ Hr Ht) as Hm.
        destruct (Js.splice d 0 todo rest). by split.
      * by rewrite (run_moveTodo_no_source _ _ _ _ _ Hl Hs).
    + by rewrite (run_moveTodo_no_list _ _ _ _ Hl).
  - destruct (Js.get (todos w) i) as [l|] eqn:Hl.
    + rewrite (run_editTodo _ _ _ _ _ Hl). seen.
      apply plain_setList; [done|].
      destruct (Hedit l Hl) as [[Hk0 Hk] Hbound].
      destruct (plain_get _ _ _ Hplain Hl) as [Hall Hprops].
      unfold withinLengthBound, Js.length in Hbound. unfold Js.write.
      replace (Js.is_index k) with true by (unfold Js.is_index; lia).
      destruct (Nat.ltb_spec (Z.to_nat k) (length (Js.elems (items l))));
        [|lia].
      split; [|done]. seen. apply Forall_insert; [done | by eexists].
    + by rewrite (run_editTodo_no_list _ _ _ _ Hl).
Qed.

(** X17 at work: a move with a destination far out of range. *)
Lemma calls_keep_lists_plain_witness :
  plain (todos (serve (MoveTodo 0 1 99) true sampleWorld).1).
Proof.
  apply calls_keep_lists_plain.
  - repeat constructor; simpl; eauto.
  - exact I.
Defined.

(** ** The socket over time *)

(** X18.  Removing a listener twice is removing it once; removing a
    listener right after registering it removes all its registrations, the
    earlier ones included, and gives the socket back when the listener was
    not registered before. *)
Theorem removeListener_after_addListener (L : SocketClient) (s : FakeSocket.t) :
  FakeSocket.removeListener L (FakeSocket.removeListener L s)
  = FakeSocket.removeListener L s
  ∧ FakeSocket.removeListener L (FakeSocket.addListener L s)
    = FakeSocket.removeListener L s
  ∧ (L ∉ FakeSocket.clients s →
     FakeSocket.removeListener L (FakeSocket.addListener L s) = s).
Proof.
  assert (Hadd : FakeSocket.removeListener L (FakeSocket.addListener L s)
                 = FakeSocket.removeListener L s).
  { unfold FakeSocket.removeListener, FakeSocket.addListener. simpl. f_equal.
    rewrite filter_app, filter_cons, filter_nil.
    destruct (decide (L ≠ L)); [done | by rewrite app_nil_r]. }
  split; [|split; [done|]].
  - unfold FakeSocket.removeListener. simpl. f_equal.
    apply filter_absent. intros [Hne _]%list_elem_of_filter. congruence.
  - intros Hn. rewrite Hadd. destruct s as [cl n].
    unfold FakeSocket.removeListener. simpl. f_equal. by apply filter_absent.
Qed.

(** X18 at work: listener 3 comes and goes. *)
Lemma removeListener_after_addListener_witness :
  FakeSocket.removeListener 3%nat
    (FakeSocket.addListener 3%nat (FakeSocket.mk [1; 2]%nat 0))
  = FakeSocket.mk [1; 2]%nat 0.
Proof.
  apply (removeListener_after_addListener 3%nat (FakeSocket.mk [1; 2]%nat 0)).
  intros Hin. apply list_elem_of_In in Hin. simpl in Hin. lia.
Defined.

Lemma broadcast_stamped (s : FakeSocket.t) (message : RawMessage) :
  Forall (λ d, d.1 ∈ FakeSocket.clients s
               ∧ sequenceId d.2 = FakeSocket.counter s)
         (broadcast s message)
  ∧ length (broadcast s message) = length (FakeSocket.clients s).
Proof.
  unfold broadcast. split; [|apply length_map].
  apply Forall_forall. intros d Hd. apply list_elem_of_In in Hd.
  apply in_map_iff in Hd as (c & <- & Hc). split; [|done].
  by apply list_elem_of_In.
Qed.

Lemma socketCalls_cons (c : SocketCall) (cs : list SocketCall)
    (σ : FakeSocket.st) :
  socketCalls (c :: cs) σ = socketCalls cs (socketCall c σ).
Proof. reflexivity. Qed.

Lemma socketCalls_counter (cs : list SocketCall) (s : FakeSocket.t)
    (log : list Delivery) :
  let σ := socketCalls cs (s, log) in
  FakeSocket.counter σ.1 = FakeSocket.counter s
  ∧ ∃ new, σ.2 = log ++ new
           ∧ Forall (λ d, sequenceId d.2 = FakeSocket.counter s) new.
Proof.
  revert s log. induction cs as [|c cs IH]; intros s log; cbv zeta.
  - split; [done|]. exists []. by rewrite app_nil_r.
  - rewrite socketCalls_cons.
    destruct c as [client|client|message]; cbn [socketCall fst snd].
    + apply (IH (FakeSocket.addListener client s) log).
    + apply (IH (FakeSocket.removeListener client s) log).
    + rewrite dispatchMessage_broadcast.
      destruct (IH s (log ++ broadcast s message)) as (Hc & new & Hlog & Hall).
      split; [done|]. exists (broadcast s message ++ new).
      split; [by rewrite Hlog, app_assoc|]. apply Forall_app. split; [|done].
      eapply Forall_impl; [apply (broadcast_stamped s message)|].
      by intros d [_ Hd].
Qed.

(** X19.  Nothing ever changes the counter of the socket: from a new
    socket, after any sequence of registrations, removals and publications,
    the counter is 0 and every message delivered carries [sequenceId] 0. *)
Theorem sequenceId_is_always_zero (cs : list SocketCall) :
  let σ := socketCalls cs (FakeSocket.new, []) in
  FakeSocket.counter σ.1 = 0 ∧ Forall (λ d, sequenceId d.2 = 0) σ.2.
Proof.
  destruct (socketCalls_counter cs FakeSocket.new [])
    as (Hc & new & Hlog & Hall).
  cbv zeta. by rewrite Hlog.
Qed.

Section HeardLemmas.
Implicit Types (s : FakeSocket.t) (log : list Delivery) (L : SocketClient).

Lemma heard_app L log log' : heard L (log ++ log') = heard L log ++ heard L log'.
Proof. unfold heard. by rewrite filter_app, fmap_app. Qed.

Lemma heard_broadcast L s message :
  heard L (broadcast s message)
  = replicate (length (filter (λ c, c = L) (FakeSocket.clients s))) message.
Proof.
  unfold heard, broadcast.
  induction (FakeSocket.clients s) as [|c l IH]; [done|].
  cbn [map]. rewrite !filter_cons. cbn [fst].
  destruct (decide (c = L)); [|done].
  rewrite fmap_cons. cbn [length replicate snd raw]. by rewrite IH.
Qed.

Lemma registrations_addListener L other s :
  other ≠ L →
  filter (λ c, c = L) (FakeSocket.clients (FakeSocket.addListener other s))
  = filter (λ c, c = L) (FakeSocket.clients s).
Proof.
  intros Hne. simpl. rewrite filter_app, filter_cons, filter_nil.
  destruct (decide (other = L)); [done | by rewrite app_nil_r].
Qed.

Lemma registrations_removeListener L other s :
  other ≠ L →
  filter (λ c, c = L) (FakeSocket.clients (FakeSocket.removeListener other s))
  = filter (λ c, c = L) (FakeSocket.clients s).
Proof. intros Hne. simpl. apply filter_other. congruence. Qed.

End HeardLemmas.

(** X20.  A listener that is registered once and is neither registered
    again nor removed hears every published message exactly once, in the
    order of publication, whatever the other listeners do. *)
Theorem steady_listener_hears_all
    (L : SocketClient) (cs : list SocketCall) (s : FakeSocket.t)
    (log : list Delivery) :
  length (filter (λ c, c = L) (FakeSocket.clients s)) = 1%nat →
  Forall (leavesAlone L) cs →
  heard L (socketCalls cs (s, log)).2 = heard L log ++ dispatched cs.
Proof.
  revert s log. induction cs as [|c cs IH]; intros s log Hone Hcs.
  - by rewrite app_nil_r.
  - apply Forall_cons in Hcs as [Hc Hcs]. rewrite socketCalls_cons.
    destruct c as [client|client|message]; cbn [socketCall fst snd leavesAlone] in *.
    + apply IH; [|done]. by rewrite registrations_addListener.
    + apply IH; [|done]. by rewrite registrations_removeListener.
    + rewrite dispatchMessage_broadcast, IH by done.
      rewrite heard_app, heard_broadcast, Hone. unfold dispatched.
      cbn [omap list_omap replicate]. by rewrite <- app_assoc.
Qed.

(** X20 at work: listener 1 stays while listener 2 leaves and 3 arrives. *)
Lemma steady_listener_hears_all_witness :
  heard 1%nat
    (socketCalls [DispatchMessage (DeleteListMessage 0);
                  RemoveListener 2%nat; AddListener 3%nat;
                  DispatchMessage (RemoveTodoMessage 0 1)]
                 (FakeSocket.mk [1; 2]%nat 0, [])).2
  = heard 1%nat []
    ++ dispatched [DispatchMessage (DeleteListMessage 0);
                   RemoveListener 2%nat; AddListener 3%nat;
                   DispatchMessage (RemoveTodoMessage 0 1)].
Proof.
  apply steady_listener_hears_all.
  - reflexivity.
  - repeat constructor; simpl; lia.
Defined.

(** ** The executor *)

Section ExecutorLemmas.
Implicit Types (σ : Executor.st) (es : list Executor.Event).

Lemma launch_bad a b σ :
  badPeriods (Executor.this σ) →
  Executor.launch a b σ
  = inl "min period must be inferior to max period and both must be positive".
Proof.
  unfold badPeriods, Executor.launch. intros Hbad.
  replace ((Executor.minPeriod (Executor.this σ) <? 0)
           || (Executor.maxPeriod (Executor.this σ) <? 0)
           || (Executor.minPeriod (Executor.this σ)
               >=? Executor.maxPeriod (Executor.this σ))) with true; [done|].
  lia.
Qed.

Lemma launch_good a b σ :
  ¬ badPeriods (Executor.this σ) →
  Executor.launch a b σ
  = inr (Executor.mkSt (Executor.mk true a b) (S (Executor.pending σ))
                       (Executor.performed σ)).
Proof.
  unfold badPeriods, Executor.launch. intros Hgood.
  replace ((Executor.minPeriod (Executor.this σ) <? 0)
           || (Executor.maxPeriod (Executor.this σ) <? 0)
           || (Executor.minPeriod (Executor.this σ)
               >=? Executor.maxPeriod (Executor.this σ))) with false; [done|].
  lia.
Qed.

Lemma step_keeps_bad_periods e σ :
  badPeriods (Executor.this σ) →
  Executor.minPeriod (Executor.this (Executor.step e σ))
  = Executor.minPeriod (Executor.this σ)
  ∧ Executor.maxPeriod (Executor.this (Executor.step e σ))
    = Executor.maxPeriod (Executor.this σ).
Proof.
  intros Hbad. destruct e as [a b| |]; cbn [Executor.step].
  - by rewrite (launch_bad _ _ _ Hbad).
  - done.
  - unfold Executor.fire. destruct (Executor.pending σ); [done|].
    unfold Executor.run. cbn [Executor.this]. by destruct (Executor.running _).
Qed.

Lemma steps_keep_bad_periods es σ :
  badPeriods (Executor.this σ) → badPeriods (Executor.this (Executor.steps es σ)).
Proof.
  revert σ. induction es as [|e es IH]; intros σ Hbad; [done|].
  unfold Executor.steps. cbn [foldl]. apply IH.
  destruct (step_keeps_bad_periods e σ Hbad) as [Hmin Hmax].
  unfold badPeriods in *. rewrite Hmin, Hmax. done.
Qed.

End ExecutorLemmas.

(** X21.  [launch] validates the periods stored by the previous launch,
    not its own arguments: it throws exactly when the stored periods are
    bad, whatever it is given, and otherwise stores whatever it is given,
    sets [running] and sets one timer.  A new executor (periods 1 and 5)
    therefore accepts any pair, negative or reversed. *)
Theorem launch_checks_stored_periods (a b : Z) (σ : Executor.st) :
  (badPeriods (Executor.this σ) → ∃ error, Executor.launch a b σ = inl error)
  ∧ (¬ badPeriods (Executor.this σ) →
     Executor.launch a b σ
     = inr (Executor.mkSt (Executor.mk true a b) (S (Executor.pending σ))
                          (Executor.performed σ)))
  ∧ Executor.launch a b (Executor.mkSt Executor.new 0 0)
    = inr (Executor.mkSt (Executor.mk true a b) 1 0).
Proof.
  split; [|split].
  - intros Hbad. rewrite (launch_bad _ _ _ Hbad). by eexists.
  - apply launch_good.
  - apply launch_good. unfold badPeriods. simpl. lia.
Qed.

(** X21 at work: a running executor with periods 1 and 5 is relaunched with
    reversed periods. *)
Lemma launch_checks_stored_periods_witness :
  Executor.launch 9 2 (Executor.mkSt (Executor.mk true 1 5) 1 4)
  = inr (Executor.mkSt (Executor.mk true 9 2) 2 4).
Proof.
  apply (launch_checks_stored_periods 9 2
           (Executor.mkSt (Executor.mk true 1 5) 1 4)).
  unfold badPeriods. simpl. lia.
Defined.

(** X22.  Bad periods cannot be repaired: after a launch that was given a
    negative or reversed pair, every later launch throws, whatever its
    arguments and whatever happened in between (stops, timers firing,
    other launches). *)
Theorem bad_launch_locks_executor
    (a b a' b' : Z) (σ σ' : Executor.st) (es : list Executor.Event) :
  Executor.launch a b σ = inr σ' →
  a < 0 ∨ b < 0 ∨ b ≤ a →
  ∃ error, Executor.launch a' b' (Executor.steps es σ') = inl error.
Proof.
  intros Hlaunch Hargs. eexists. apply launch_bad, steps_keep_bad_periods.
  unfold Executor.launch in Hlaunch.
  destruct (_ || _); [done|]. injection Hlaunch as <-. exact Hargs.
Qed.

(** X22 at work: a new executor launched with 5 and 1, stopped, then
    launched with 1 and 5. *)
Lemma bad_launch_locks_executor_witness :
  ∃ error,
    Executor.launch 1 5
      (Executor.steps [Executor.Stop; Executor.Fire]
         (Executor.mkSt (Executor.mk true 5 1) 1 0))
    = inl error.
Proof.
  apply (bad_launch_locks_executor 5 1 1 5 (Executor.mkSt Executor.new 0 0)).
  - reflexivity.
  - lia.
Defined.

(** X23.  Timers are never cancelled.  [stop] leaves the pending timers in
    place; once stopped, each of them fires without performing an action or
    setting a new timer, until none is left.  While running, each firing
    performs one action and sets one timer, so the number of pending timers
    stays what it is; a [launch] accepted while timers are pending (after a
    [stop], say) adds one more to them. *)
Theorem timers_are_never_cancelled (σ : Executor.st) (n : nat) :
  Executor.pending (Executor.stop σ) = Executor.pending σ
  ∧ (Executor.running (Executor.this σ) = false →
     Nat.iter n Executor.fire σ
     = Executor.mkSt (Executor.this σ) (Executor.pending σ - n)
                     (Executor.performed σ))
  ∧ (Executor.running (Executor.this σ) = true →
     (0 < Executor.pending σ)%nat →
     Nat.iter n Executor.fire σ
     = Executor.mkSt (Executor.this σ) (Executor.pending σ)
                     (Executor.performed σ + n))
  ∧ (¬ badPeriods (Executor.this σ) →
     ∀ a b,
       Executor.steps [Executor.Stop; Executor.Launch a b] σ
       = Executor.mkSt (Executor.mk true a b) (S (Executor.pending σ))
                       (Executor.performed σ)).
Proof.
  destruct σ as [e p k]. cbn [Executor.this Executor.pending Executor.performed].
  split; [done|]. split; [|split].
  - intros Hstopped. induction n as [|n IH].
    + simpl. by rewrite Nat.sub_0_r.
    + rewrite Nat.iter_succ, IH. unfold Executor.fire.
      cbn [Executor.pending Executor.this Executor.performed].
      destruct (p - n)%nat as [|m] eqn:Hm.
      * f_equal. lia.
      * unfold Executor.run. cbn [Executor.this]. rewrite Hstopped.
        f_equal. lia.
  - intros Hrunning Hp. induction n as [|n IH].
    + simpl. by rewrite Nat.add_0_r.
    + rewrite Nat.iter_succ, IH. unfold Executor.fire.
      cbn [Executor.pending Executor.this Executor.performed].
      destruct p as [|m]; [lia|].
      unfold Executor.run. cbn [Executor.this]. rewrite Hrunning.
      unfold Executor.nextExec, Executor.performRandomAction.
      cbn [Executor.pending Executor.this Executor.performed]. f_equal. lia.
  - intros Hgood a b. unfold Executor.steps. cbn [foldl Executor.step].
    rewrite launch_good; [done|]. by destruct e.
Qed.

(** X23 at work: a running executor with one timer keeps one timer over
    three firings and performs three actions. *)
Lemma timers_are_never_cancelled_witness :
  Nat.iter 3 Executor.fire (Executor.mkSt (Executor.mk true 1 5) 1 0)
  = Executor.mkSt (Executor.mk true 1 5) 1 (0 + 3).
Proof.
  apply (timers_are_never_cancelled
           (Executor.mkSt (Executor.mk true 1 5) 1 0) 3).
  - reflexivity.
  - simpl. lia.
Defined.

(** ** Calls that undo or ignore each other *)





(** An item operation looks at, and changes, the list it targets only. *)
Lemma serve_local (q : Request) (sample : bool) (i : Z) :
  target q = Some i →
  ∃ (F : TodoList → option TodoList)
    (G : option TodoList → option (Settlement Response)),
    ∀ w, todos (serve q sample w).1
         = match Js.get (todos w) i with
           | Some l => match F l with
                       | Some l' => setList i l' (todos w)
                       | None => todos w
                       end
           | None => todos w
           end
         ∧ (serve q sample w).2 = G (Js.get (todos w) i).
Proof.
  intros Hq. destruct sample.
  2:{ exists (λ _, None), (λ _, Some (Rejected (buildErrorResponse 500 "internal error"))).
      intros w. rewrite serve_failure. by destruct (Js.get (todos w) i). }
  destruct q as [|name|i0|i0 item|i0 k|i0 s d|i0 k v]; try done;
    injection Hq as ->; unfold serve.
  - exists (λ l, Some (withItems l (Js.push (items l) item))),
           (λ o, match o with
                 | Some _ => Some (Resolved (Flag true))
                 | None => Some (Rejected
                                   (buildErrorResponse 400 "index out of bound"))
                 end).
    intros w. destruct (Js.get (todos w) i) as [l|] eqn:Hl.
    + by rewrite (run_addTodo _ _ _ _ Hl).
    + rewrite run_addTodo_invalid; [done|].
      intros [x Hx]%valid_get_Some. congruence.
  - exists (λ l, if (k <? 0) || (k >=? Z.of_nat (length (Js.elems (items l))))
                 then None
                 else Some (withItems l (Js.array_splice k 1 [] (items l)).2)),
           (λ o, match o with
                 | Some l =>
                     if (k <? 0) || (k >=? Z.of_nat (length (Js.elems (items l))))
                     then Some (Rejected
                                  (buildErrorResponse 400 "index out of bound"))
                     else Some (Resolved (Flag true))
                 | None => Some (Rejected
                                   (buildErrorResponse 400 "index out of bound"))
                 end).
    intros w. destruct (Js.get (todos w) i) as [l|] eqn:Hl.
    + destruct (decide (0 ≤ k < Z.of_nat (length (Js.elems (items l)))))
        as [Hk|Hk].
      * rewrite (run_removeTodo _ _ _ _ Hl Hk). by rewrite (valid_tests _ _ Hk).
      * rewrite run_removeTodo_invalid by (right; eauto).
        by rewrite (invalid_tests _ _ Hk).
    + rewrite run_removeTodo_invalid; [done|]. left.
      intros [x Hx]%valid_get_Some. congruence.
  - exists (λ l, if (s <? 0) || (s >=? Z.of_nat (length (Js.elems (items l))))
                 then None
                 else let taken := Js.array_splice s 1 [] (items l) in
                      Some (withItems l
                              (Js.array_splice d 0 taken.1 taken.2).2)),
           (λ o, match o with
                 | Some l =>
                     if (s <? 0) || (s >=? Z.of_nat (length (Js.elems (items l))))
                     then Some (Rejected
                                  (buildErrorResponse 400 "index out of bound"))
                     else Some (Resolved (Flag true))
                 | None => Some (Rejected
                                   (buildErrorResponse 400 "Could not find todolist"))
                 end).
    intros w. destruct (Js.get (todos w) i) as [l|] eqn:Hl.
    + destruct (decide (0 ≤ s < Z.of_nat (length (Js.elems (items l)))))
        as [Hs|Hs].
      * rewrite (run_moveTodo _ _ _ _ _ Hl Hs). by rewrite (valid_tests _ _ Hs).
      * rewrite (run_moveTodo_no_source _ _ _ _ _ Hl Hs).
        by rewrite (invalid_tests _ _ Hs).
    + by rewrite (run_moveTodo_no_list _ _ _ _ Hl).
  - exists (λ l, Some (withItems l (Js.write (items l) k v))),
           (λ o, match o with
                 | Some l =>
                     if (k <? 0) || (k >=? Z.of_nat (length (Js.elems (items l))))
                     then Some (Rejected
                                  (buildErrorResponse 400 "index out of bound"))
                     else Some (Resolved (Flag true))
                 | None => Some (Rejected
                                   (buildErrorResponse 400 "could not find todolist"))
                 end).
    intros w. destruct (Js.get (todos w) i) as [l|] eqn:Hl.
    + rewrite (run_editTodo _ _ _ _ _ Hl). unfold settled. cbn [world promise].
      by destruct ((k <? 0) || (k >=? Z.of_nat (length (Js.elems (items l))))).
    + by rewrite (run_editTodo_no_list _ _ _ _ Hl).
Qed.

(** * When the write to the storage throws *)

(** Unfold a callback of [Failing] down to its steps. *)
Ltac attempt :=
  unfold Failing.run, Failing.tryCatch, Failing.when,
    Failing.saveTodoToStorage, Failing.getTodos, Failing.setTodos,
    Failing.resolve, Failing.reject, Failing.dispatch, Failing.throw,
    Failing.lift, mbind, Failing.throwing_bind, mret, Failing.throwing_ret;
  callback.

(** Follow both sides of an equation between two runs of the same code
    down the same branches. *)
Ltac same_path :=
  repeat first
    [ progress attempt
    | progress published
    | match goal with
      | |- context [Js.get ?ts ?i] => destruct (Js.get ts i) as [?|]
      | |- context [if ?c then _ else _] => destruct c
      | |- context [Js.array_splice ?a ?b ?c ?d] =>
          destruct (Js.array_splice a b c d)
      end ];
  try reflexivity.

Section FailingRuns.
Implicit Types (w : World) (l : TodoList) (q : Request).

(** With a write that succeeds, the callbacks of [Failing] are the
    callbacks of the first model. *)
Lemma Failing_serve_saved q sample w :
  Failing.serve q sample true w = serve q sample w.
Proof.
  destruct q; unfold Failing.serve, serve; f_equal.
  - unfold getTodoLists. by destruct sample.
  - unfold Failing.createList, createList. destruct sample; [|done].
    attempt. rewrite get_last. by same_path.
  - unfold Failing.deleteList, deleteList. by same_path.
  - unfold Failing.addTodo, addTodo. by same_path.
  - unfold Failing.removeTodo, removeTodo, Js.length. by same_path.
  - unfold Failing.moveTodo, moveTodo, Js.length. by same_path.
  - unfold Failing.editTodo, editTodo, Js.length. by same_path.
Qed.

Lemma Failing_run_lift {T} (c : Callback T unit) w :
  Failing.run (Failing.lift c) w = run c w.
Proof.
  unfold Failing.run, Failing.lift, run. by destruct (c (mkRun w None)).
Qed.

Lemma Failing_serve_failure q saved w :
  Failing.serve q false saved w = serve q false w.
Proof. by destruct q. Qed.

Lemma mutated_same w : mutated w (todos w) = w.
Proof. by destruct w. Qed.

(** With a write that throws: the lists in memory are those of the call
    whose write succeeds, nothing else has changed, and the promise ends as
    [unsavedOutcome] says. *)
Lemma Failing_serve_unsaved q w :
  Failing.serve q true false w
  = (mutated w (todos (serve q true w).1),
     unsavedOutcome q (serve q true w).2).
Proof.
  destruct q as [|name|i|i item|i k|i s d|i k v]; unfold Failing.serve, serve.
  - rewrite Failing_run_lift, run_getTodoLists. seen.
    by rewrite mutated_same.
  - rewrite run_createList. seen. unfold Failing.createList. by attempt.
  - rewrite run_deleteList. seen. unfold Failing.deleteList. attempt.
    by destruct ((i <? 0) || (i >=? Z.of_nat (length (todos w)))).
  - destruct (Js.get (todos w) i) as [l|] eqn:Hl.
    + rewrite (run_addTodo _ _ _ _ Hl). seen. unfold Failing.addTodo. attempt.
      rewrite (valid_tests _ _ (get_Some_valid _ _ _ Hl)). attempt.
      rewrite Hl. by attempt.
    + assert (Hi : ¬ validIndex i (todos w))
        by (intros [x Hx]%valid_get_Some; congruence).
      rewrite (run_addTodo_invalid _ _ _ Hi). seen. rewrite mutated_same.
      unfold Failing.addTodo. attempt. rewrite (invalid_tests _ _ Hi). attempt.
      rewrite Hl. by attempt.
  - destruct (Js.get (todos w) i) as [l|] eqn:Hl.
    + destruct (decide (0 ≤ k < Z.of_nat (length (Js.elems (items l)))))
        as [Hk|Hk].
      * rewrite (run_removeTodo _ _ _ _ Hl Hk). seen.
        unfold Failing.removeTodo, Js.length. attempt.
        rewrite (valid_tests _ _ (get_Some_valid _ _ _ Hl)), Hl.
        rewrite (valid_tests _ _ Hk). by attempt.
      * rewrite run_removeTodo_invalid by (right; eauto). seen.
        rewrite mutated_same. unfold Failing.removeTodo, Js.length. attempt.
        rewrite (valid_tests _ _ (get_Some_valid _ _ _ Hl)), Hl.
        by rewrite (invalid_tests _ _ Hk).
    + assert (Hi : ¬ validIndex i (todos w))
        by (intros [x Hx]%valid_get_Some; congruence).
      rewrite run_removeTodo_invalid by (by left). seen. rewrite mutated_same.
      unfold Failing.removeTodo. attempt. by rewrite (invalid_tests _ _ Hi).
  - destruct (Js.get (todos w) i) as [l|] eqn:Hl.
    + destruct (decide (0 ≤ s < Z.of_nat (length (Js.elems (items l)))))
        as [Hs|Hs].
      * rewrite (run_moveTodo _ _ _ _ _ Hl Hs). seen.
        unfold Failing.moveTodo, Js.length. attempt. rewrite Hl.
        rewrite (valid_tests _ _ (get_Some_valid _ _ _ Hl)).
        rewrite <- orb_assoc, (valid_tests _ _ Hs). cbn [orb].
        destruct (Js.array_splice s 1 [] (items l)) as [todo rest].
        by attempt.
      * rewrite (run_moveTodo_no_source _ _ _ _ _ Hl Hs). seen.
        rewrite mutated_same. unfold Failing.moveTodo, Js.length. attempt.
        rewrite Hl, (valid_tests _ _ (get_Some_valid _ _ _ Hl)).
        by rewrite <- orb_assoc, (invalid_tests _ _ Hs).
    + rewrite (run_moveTodo_no_list _ _ _ _ Hl). seen. rewrite mutated_same.
      unfold Failing.moveTodo. attempt. by rewrite Hl.
  - destruct (Js.get (todos w) i) as [l|] eqn:Hl.
    + rewrite (run_editTodo _ _ _ _ _ Hl). seen.
      unfold Failing.editTodo, Js.length. attempt. rewrite Hl.
      rewrite (valid_tests _ _ (get_Some_valid _ _ _ Hl)).
      rewrite <- orb_assoc. cbn [orb].
      by destruct ((k <? 0) || (k >=? Z.of_nat (length (Js.elems (items l))))).
    + rewrite (run_editTodo_no_list _ _ _ _ Hl). seen. rewrite mutated_same.
      unfold Failing.editTodo. attempt. by rewrite Hl.
Qed.

End FailingRuns.

Section FailingLemmas.
Implicit Types (w : World) (l : TodoList) (q : Request).

Lemma Failing_run_editTodo w listIndex itemIndex newValue l saved :
  Js.get (todos w) listIndex = Some l →
  Failing.run (Failing.editTodo listIndex itemIndex newValue true saved) w
  = let ts := setList listIndex
                (withItems l (Js.write (items l) itemIndex newValue))
                (todos w) in
    mkRun (if saved
           then committed w ts (EditTodoMessage listIndex itemIndex newValue)
           else mutated w ts)
          (Some (if (itemIndex <? 0)
                    || (itemIndex >=? Z.of_nat (length (Js.elems (items l))))
                 then Rejected (buildErrorResponse 400 "index out of bound")
                 else if saved then Resolved true
                      else Rejected (buildErrorResponse 500 "internal error"))).
Proof.
  intros Hl. unfold Failing.editTodo, Js.length. attempt. rewrite Hl.
  rewrite (valid_tests _ _ (get_Some_valid _ _ _ Hl)).
  rewrite <- orb_assoc. cbn [orb].
  destruct ((itemIndex <? 0)
            || (itemIndex >=? Z.of_nat (length (Js.elems (items l)))));
    destruct saved; attempt; try published; reflexivity.
Qed.

(** The lists and the promise of a call of [Failing], from those of the
    call of the first model. *)
Lemma Failing_serve_via q sample saved w :
  todos (Failing.serve q sample saved w).1 = todos (serve q sample w).1
  ∧ (Failing.serve q sample saved w).2
    = if sample && negb saved
      then unsavedOutcome q (serve q sample w).2
      else (serve q sample w).2.
Proof.
  destruct sample; [destruct saved|].
  - by rewrite Failing_serve_saved.
  - by rewrite Failing_serve_unsaved.
  - by rewrite Failing_serve_failure.
Qed.


End FailingLemmas.

(** C2, as the claim states it, fails.  On the initial store with one
    listener, [editTodo(0, 200000000, v)] whose write to the storage throws
    (the text of two hundred million empty slots cannot be built) rejects
    with (400, "index out of bound") and leaves the value in memory, but the
    storage does not hold the text of the lists and no [editTodo] message
    has been delivered. *)
Lemma editTodo_far_index_not_persisted :
  let w := mkWorld initTodos None (FakeSocket.mk [1%nat] 0) [] in
  let newValue := mkTodo "late" true in
  let r := Failing.run (Failing.editTodo 0 200000000 newValue true false) w in
  promise r
  = Some (Rejected {| code := 400; error_description := "index out of bound" |})
  ∧ (∃ edited, Js.get (todos (world r)) 0 = Some edited
               ∧ Js.read (items edited) 200000000 = Some newValue)
  ∧ localStorage (world r) ≠ Some (ArrayText (stringify (todos (world r))))
  ∧ received (world r)
    ≠ received w ++ broadcast (socket w) (EditTodoMessage 0 200000000 newValue).
Proof.
  intros w newValue r. subst r.
  rewrite (Failing_run_editTodo w 0 200000000 newValue
             {| items := Js.empty; name := "my first list" |} false eq_refl).
  cbv zeta. cbn [world promise mutated localStorage received todos].
  split; [done|]. split; [|split].
  - eexists. split; [by apply (setList_get _ _ (mkTodoList Js.empty "my first list"))|].
    apply read_write.
  - discriminate.
  - discriminate.
Qed.

(** C2, amended.  [editTodo] on a valid list and an item index outside that
    list's items rejects with (400, "index out of bound") and still writes
    the new value at [items[itemIndex]] in memory.  When the write to the
    storage succeeds, the storage then holds the text of the lists and an
    [editTodo] message with [{listIndex, itemIndex, newValue}] goes to every
    listener; when it throws, storage and listeners are left as they were. *)
Theorem editTodo_out_of_range_writes_in_memory
    (w : World) (listIndex itemIndex : Z) (newValue : Todo)
    (todoList : TodoList) (saved : bool) :
  validIndex listIndex (todos w) →
  Js.get (todos w) listIndex = Some todoList →
  ¬ validIndex itemIndex (Js.elems (items todoList)) →
  let r :=
    Failing.run (Failing.editTodo listIndex itemIndex newValue true saved) w in
  promise r
  = Some (Rejected {| code := 400; error_description := "index out of bound" |})
  ∧ (∃ edited, Js.get (todos (world r)) listIndex = Some edited
               ∧ Js.read (items edited) itemIndex = Some newValue)
  ∧ (saved = true →
     localStorage (world r) = Some (ArrayText (stringify (todos (world r))))
     ∧ (∃ text, localStorage (world r) = Some (ArrayText text)
                ∧ length text = length (todos (world r))
                ∧ ∀ j l, Js.get (todos (world r)) j = Some l →
                         text !! Z.to_nat j
                         = Some (name l, Js.elems (items l)))
     ∧ received (world r)
       = received w
         ++ broadcast (socket w)
                      (EditTodoMessage listIndex itemIndex newValue))
  ∧ (saved = false →
     localStorage (world r) = localStorage w
     ∧ received (world r) = received w).
Proof.
  intros _ Hl Hk r. subst r. rewrite (Failing_run_editTodo _ _ _ _ _ _ Hl).
  rewrite (invalid_tests _ _ Hk). cbv zeta. cbn [world promise].
  split; [done|]. split; [|split].
  - destruct saved; cbn [committed mutated todos];
      (eexists; split; [by apply (setList_get _ _ todoList) | apply read_write]).
  - intros ->. cbn [committed localStorage received todos].
    split; [done|]. split; [|done]. eexists. split; [done|].
    split; [apply length_map|]. intros j l Hj. by apply stringify_get.
  - by intros ->.
Qed.

(** C2 amended, at work: item 5 of the empty first list, write accepted. *)
Lemma editTodo_out_of_range_writes_in_memory_witness :
  promise (Failing.run (Failing.editTodo 0 5 (mkTodo "late" true) true true)
             (mkWorld initTodos None (FakeSocket.mk [1%nat] 0) []))
  = Some (Rejected {| code := 400; error_description := "index out of bound" |}).
Proof.
  apply (editTodo_out_of_range_writes_in_memory
           (mkWorld initTodos None (FakeSocket.mk [1%nat] 0) []) 0 5
           (mkTodo "late" true)
           {| items := Js.empty; name := "my first list" |} true).
  - concrete.
  - reflexivity.
  - concrete.
Defined.

(** X14.  When the write to the storage throws, the change of the lists in
    memory has been made and stays, exactly as in the call whose write
    succeeds, while the storage, the socket and the listeners are left as
    they were.  A promise rejected before the write keeps that rejection and
    [getTodoLists] is not concerned; [createList], which has no [try], leaves
    its promise pending with the new list in memory; the other calls reject
    with (500, "internal error"). *)
Theorem failed_write_keeps_memory_change (q : Request) (w : World) :
  let ok := Failing.serve q true true w in
  let ko := Failing.serve q true false w in
  (todos ko.1 = todos ok.1
   ∧ localStorage ko.1 = localStorage w
   ∧ socket ko.1 = socket w
   ∧ received ko.1 = received w
   ∧ ko.2 = unsavedOutcome q ok.2)
  ∧ (∀ name,
       Failing.serve (CreateList name) true false w
       = (mutated w (todos w ++ [ {| items := Js.empty; name := name |} ]),
          None))
  ∧ (∀ i item l,
       Js.get (todos w) i = Some l →
       Failing.serve (AddTodo i item) true false w
       = (mutated w (setList i (withItems l (Js.push (items l) item))
                             (todos w)),
          Some (Rejected (buildErrorResponse 500 "internal error")))).
Proof.
  cbv zeta. rewrite Failing_serve_saved, !Failing_serve_unsaved.
  split; [done|]. split.
  - intros name. rewrite Failing_serve_unsaved. unfold serve.
    by rewrite run_createList.
  - intros i item l Hl. rewrite Failing_serve_unsaved. unfold serve.
    by rewrite (run_addTodo _ _ _ _ Hl).
Qed.

(** X14 at work: a chore is added while the storage is full. *)
Lemma failed_write_keeps_memory_change_witness :
  Failing.serve (AddTodo 1 (mkTodo "dust" false)) true false sampleWorld
  = (mutated sampleWorld
       (setList 1
          (withItems (mkTodoList (Js.Array [Some (mkTodo "sweep" false)] ∅)
                                 "chores")
             (Js.push (Js.Array [Some (mkTodo "sweep" false)] ∅)
                      (mkTodo "dust" false)))
          (todos sampleWorld)),
     Some (Rejected (buildErrorResponse 500 "internal error"))).
Proof.
  by apply (proj2 (proj2 (failed_write_keeps_memory_change GetTodoLists
                            sampleWorld))).
Defined.

(** X15.  Write-through, as long as the writes succeed: if the storage
    holds the text of the lists, it still does after any sequence of calls
    whose writes all succeed, the calls being successful or not, valid or
    not.  One write that throws is enough to break it: after an [addTodo]
    on a valid list whose write throws, the storage no longer holds the text
    of the lists. *)
Theorem storage_synced_while_writes_succeed :
  (∀ (calls : list (Request * bool * bool)) (w : World),
     synced w →
     Forall (λ call, call.2 = true) calls →
     synced (Failing.serveAll calls w))
  ∧ (∀ (w : World) (i : Z) (item : Todo) (l : TodoList),
       synced w →
       Js.get (todos w) i = Some l →
       ¬ synced (Failing.serve (AddTodo i item) true false w).1).
Proof.
  split.
  - intros calls. induction calls as [|[[q sample] saved] calls IH];
      intros w Hw Hall; [done|].
    apply Forall_cons in Hall as [Hsaved Hall]. cbn [snd] in Hsaved.
    subst saved. cbn [Failing.serveAll]. apply IH; [|done].
    rewrite Failing_serve_saved.
    destruct (serve_cases q sample w) as [[s Hs] | (ts & m & s & Hs)];
      rewrite Hs; [done | reflexivity].
  - intros w i item l Hw Hl. rewrite Failing_serve_unsaved. unfold serve.
    rewrite (run_addTodo _ _ _ _ Hl). seen.
    unfold synced in *. cbn [mutated localStorage todos]. rewrite Hw.
    intros Heq. injection Heq as Heq. rewrite stringify_setList in Heq.
    pose proof (stringify_get _ _ _ Hl) as Hat.
    assert (Hlook : stringify (todos w) !! Z.to_nat i
                    = Some (name l, Js.elems (items l) ++ [Some item])).
    { rewrite Heq at 1. apply list_lookup_insert_eq.
      by apply lookup_lt_Some in Hat. }
    rewrite Hat in Hlook. injection Hlook as Hlen.
    apply (f_equal length) in Hlen. rewrite length_app in Hlen. simpl in Hlen.
    lia.
Qed.

(** X15 at work: three calls on the sample store, one failing its sample
    and one out of range, all writes accepted. *)
Lemma storage_synced_while_writes_succeed_witness :
  synced (Failing.serveAll [(AddTodo 1 (mkTodo "dust" false), true, true);
                            (CreateList "work", false, true);
                            (DeleteList 9, true, true)] sampleWorld).
Proof.
  apply (proj1 storage_synced_while_writes_succeed).
  - reflexivity.
  - repeat constructor.
Defined.


(** X26.  Item operations on two different lists do not see each other's
    list: run in either order, and whatever the fate of the four writes,
    they leave the same lists in memory; and each settles its promise as it
    does on the store the other has not touched, its sample and the fate of
    its own write being the same.  (Whether a write succeeds is the
    platform's verdict on the text of all the lists, and so may itself
    depend on what the other call did.) *)
Theorem item_calls_on_different_lists_commute
    (q1 q2 : Request) (sample1 sample2 : bool)
    (saved1 saved1' saved2 saved2' : bool) (i j : Z) (w : World) :
  target q1 = Some i → target q2 = Some j → i ≠ j →
  let w1 := (Failing.serve q1 sample1 saved1 w).1 in
  let w2 := (Failing.serve q2 sample2 saved2 w).1 in
  todos (Failing.serve q2 sample2 saved2' w1).1
  = todos (Failing.serve q1 sample1 saved1' w2).1
  ∧ (∀ saved, (Failing.serve q2 sample2 saved w1).2
              = (Failing.serve q2 sample2 saved w).2)
  ∧ (∀ saved, (Failing.serve q1 sample1 saved w2).2
              = (Failing.serve q1 sample1 saved w).2).
Proof.
  intros Hq1 Hq2 Hij w1 w2.
  destruct (serve_local q1 sample1 i Hq1) as (F1 & G1 & H1).
  destruct (serve_local q2 sample2 j Hq2) as (F2 & G2 & H2).
  assert (Hsee : ∀ (a b : Z) F ts,
            a ≠ b →
            Js.get (match Js.get ts a with
                    | Some l => match F l with
                                | Some l' => setList a l' ts
                                | None => ts
                                end
                    | None => ts
                    end) b = Js.get ts b).
  { intros a b F ts Hab. destruct (Js.get ts a) as [l|] eqn:Hl; [|done].
    destruct (F l); [|done]. apply get_insert_ne; [|done].
    by destruct (get_Some_valid _ _ _ Hl). }
  assert (Hw1 : todos w1 = todos (serve q1 sample1 w).1)
    by apply Failing_serve_via.
  assert (Hw2 : todos w2 = todos (serve q2 sample2 w).1)
    by apply Failing_serve_via.
  destruct (H1 w) as [Ht1 Hs1]. destruct (H2 w) as [Ht2 Hs2].
  rewrite Ht1 in Hw1. rewrite Ht2 in Hw2.
  assert (Hj : Js.get (todos w1) j = Js.get (todos w) j)
    by (rewrite Hw1; by apply Hsee).
  assert (Hi : Js.get (todos w2) i = Js.get (todos w) i)
    by (rewrite Hw2; by apply Hsee).
  split; [|split].
  - rewrite (proj1 (Failing_serve_via q2 sample2 saved2' w1)).
    rewrite (proj1 (Failing_serve_via q1 sample1 saved1' w2)).
    rewrite (proj1 (H2 w1)), (proj1 (H1 w2)), Hj, Hi, Hw1, Hw2.
    destruct (Js.get (todos w) i) as [l1|] eqn:Hl1;
      destruct (Js.get (todos w) j) as [l2|] eqn:Hl2; try done.
    destruct (F1 l1) as [l1'|]; destruct (F2 l2) as [l2'|]; try done.
    unfold setList. apply list_insert_insert_ne.
    destruct (get_Some_valid _ _ _ Hl1), (get_Some_valid _ _ _ Hl2). lia.
  - intros saved.
    rewrite (proj2 (Failing_serve_via q2 sample2 saved w1)).
    rewrite (proj2 (Failing_serve_via q2 sample2 saved w)).
    by rewrite (proj2 (H2 w1)), (proj2 (H2 w)), Hj.
  - intros saved.
    rewrite (proj2 (Failing_serve_via q1 sample1 saved w2)).
    rewrite (proj2 (Failing_serve_via q1 sample1 saved w)).
    by rewrite (proj2 (H1 w2)), (proj2 (H1 w)), Hi.
Qed.

(** X26 at work: a grocery is ticked while a chore is added, the write of
    the first call failing in one order only. *)
Lemma item_calls_on_different_lists_commute_witness :
  todos (Failing.serve (AddTodo 1 (mkTodo "dust" false)) true true
           (Failing.serve (EditTodo 0 0 (mkTodo "milk" true)) true false
                          sampleWorld).1).1
  = todos (Failing.serve (EditTodo 0 0 (mkTodo "milk" true)) true true
             (Failing.serve (AddTodo 1 (mkTodo "dust" false)) true true
                            sampleWorld).1).1.
Proof.
  by apply (item_calls_on_different_lists_commute
              (EditTodo 0 0 (mkTodo "milk" true))
              (AddTodo 1 (mkTodo "dust" false))
              true true false true true true 0 1 sampleWorld).
Defined.
